(** * Expense tracker (app.py): persistence, validation and summaries

    A shallow embedding of the functions of [app.py] that carry the
    application's data: [add_expense], [load_expenses],
    [create_monthly_summary], [create_category_summary] and the
    filters applied in [main].

    Conventions of the model.
    - A Python [str] is the list of its code points.
    - An amount is a Python float.  The form hands out amounts in steps of
      0.01, so an amount is kept as its number of hundredths (a [Z]) where
      it is written, and as the exact rational it denotes (a [Qc]) once it
      is read back.  A sum over [Qc] says which amounts are added, not
      which float the additions give: where the rounding of binary64
      matters, the sums are taken over the floats themselves
      ([float_sum], [kahan_sum]).
    - The file [expenses.csv] is [None] when absent and [Some text]
      otherwise; opening and writing it are taken to succeed.
    - A pandas DataFrame is the list of its rows; a missing cell (NaN, NaT)
      is [None].
    - Of [csv.writer] and [pandas.read_csv], which are libraries, the model
      keeps what the calls of [app.py] use: minimal quoting, the tokenizer,
      the count of fields, the markers of missing values, and the reading
      of ISO dates and decimal numbers.
    - pandas settles the type of a column and the format of its dates on
      the column as a whole; the converters of the model read each cell by
      itself.  The two agree on the files described by [plain_line], and
      the properties that depend on how the cells of a file are converted
      are stated for those files.
    - Python prints a float in fixed notation below 1e16 and a year
      without padding below 1000; the texts [repr_float] and
      [strftime_ymd] are those of Python for amounts below 1e13 and from
      the year 1000 on, and the properties that depend on what these
      texts are are stated within these bounds. *)

From Stdlib Require Import PrimFloat.
From Stdlib Require Import String Ascii.
From Stdlib Require Import List NArith ZArith QArith Qcanon Lia Bool.
From Stdlib Require Import Permutation Sorted.
Import ListNotations.

(** Decimal literals of floats stand for the nearest binary64 number, as
    they do in Python. *)
#[local] Set Warnings "-inexact-float".

Local Open Scope N_scope.

(** ** Python strings *)

Definition char := N.
Definition str := list char.

(** A literal of the source, as code points. *)
Definition lit (s : String.string) : str :=
  map N_of_ascii (list_ascii_of_string s).

Fixpoint str_eqb (a b : str) : bool :=
  match a, b with
  | [], [] => true
  | x :: a', y :: b' => (x =? y) && str_eqb a' b'
  | _, _ => false
  end.

(** [str.isspace] for one code point (the table of CPython's
    [_PyUnicode_IsWhitespace]). *)
Definition isspace (c : char) : bool :=
  ((9 <=? c) && (c <=? 13)) || ((28 <=? c) && (c <=? 32))
  || (c =? 133) || (c =? 160) || (c =? 5760)
  || ((8192 <=? c) && (c <=? 8202))
  || (c =? 8232) || (c =? 8233) || (c =? 8239) || (c =? 8287)
  || (c =? 12288).

Fixpoint lstrip (s : str) : str :=
  match s with
  | [] => []
  | c :: t => if isspace c then lstrip t else s
  end.

Definition rstrip (s : str) : str := rev (lstrip (rev s)).

(** [s.strip()] *)
Definition strip (s : str) : str := rstrip (lstrip s).

(** Python truthiness of a string: [not s] holds of the empty string. *)
Definition is_empty (s : str) : bool :=
  match s with [] => true | _ => false end.

(** ** Decimal digits *)

Definition digit_char (d : N) : char := 48 + d.

Definition is_digit (c : char) : bool := (48 <=? c) && (c <=? 57).

Definition digit_val (c : char) : N := c - 48.

Fixpoint digits_fuel (fuel : nat) (n : N) : list N :=
  match fuel with
  | O => []
  | S f => if n <? 10 then [n] else digits_fuel f (n / 10) ++ [n mod 10]
  end.

(** The decimal digits of [n], most significant first. *)
Definition digits (n : N) : list N :=
  digits_fuel (S (N.to_nat (N.size n))) n.

(** [str(n)] for a natural number. *)
Definition str_of_N (n : N) : str := map digit_char (digits n).

(** [n] with exactly two digits ([%02d], for [n < 100]). *)
Definition pad2 (n : N) : str :=
  [digit_char (n / 10); digit_char (n mod 10)].

(** [n] with four digits at least ([%04d]). *)
Definition pad4 (n : N) : str :=
  if n <? 1000
  then [digit_char (n / 1000); digit_char (n / 100 mod 10);
        digit_char (n / 10 mod 10); digit_char (n mod 10)]
  else str_of_N n.

(** The number a string of digits denotes. *)
Definition digits_value (s : str) : N :=
  fold_left (fun acc c => acc * 10 + digit_val c) s 0.

Definition all_digits (s : str) : bool := forallb is_digit s.

(** ** Calendar dates *)

Record date := mkdate { year : N; month : N; day : N }.

Definition is_leap (y : N) : bool :=
  ((y mod 4 =? 0) && negb (y mod 100 =? 0)) || (y mod 400 =? 0).

Definition days_in_month (y m : N) : N :=
  if m =? 2 then (if is_leap y then 29 else 28)
  else if (m =? 4) || (m =? 6) || (m =? 9) || (m =? 11) then 30
  else 31.

(** The dates [datetime.date] can hold. *)
Definition valid_date (d : date) : bool :=
  (1 <=? year d) && (year d <=? 9999)
  && (1 <=? month d) && (month d <=? 12)
  && (1 <=? day d) && (day d <=? days_in_month (year d) (month d)).

(** Comparison of dates, as [datetime.date] orders them. *)
Definition date_leb (a b : date) : bool :=
  (year a <? year b)
  || ((year a =? year b)
      && ((month a <? month b)
          || ((month a =? month b) && (day a <=? day b)))).

(** [d.strftime("%Y-%m-%d")].  From the year 1000 on the text has the
    four digits of the year; below it the C library decides whether the
    year is padded (glibc prints 999, not 0999), so this text is that of
    Python from the year 1000 on only. *)
Definition strftime_ymd (d : date) : str :=
  pad4 (year d) ++ lit "-" ++ pad2 (month d) ++ lit "-" ++ pad2 (day d).

(** ** Amounts *)

(** [repr] of the float of [c] hundredths, the text [csv.writer] puts in a
    row for a float: the shortest decimal that reads back as the same
    float, which keeps one fraction digit at least and no trailing zero
    beyond it.  This is the text Python prints as long as the float tells
    hundredths apart, which it does for fifteen significant digits
    ([c] below 10^15 in absolute value, see [amount_bound]); beyond that
    Python prints other digits, and an exponent from 1e16 on. *)
Definition repr_float (c : Z) : str :=
  let a := Z.to_N (Z.abs c) in
  let f := a mod 100 in
  (if (c <? 0)%Z then lit "-" else [])
  ++ str_of_N (a / 100) ++ lit "."
  ++ (if f mod 10 =? 0 then [digit_char (f / 10)]
      else [digit_char (f / 10); digit_char (f mod 10)]).

(** The rational a number of hundredths stands for. *)
Definition amount_of_cents (c : Z) : Qc := Q2Qc (c # 100).

(** The amounts, in hundredths, whose float has [repr_float] for its
    text: fifteen significant digits at most. *)
Definition amount_bound : Z := 10 ^ 15.

(** ** Writing: [csv.writer] and [add_expense] *)

Definition comma : char := 44.
Definition dquote : char := 34.
Definition CR : char := 13.
Definition LF : char := 10.

(** A field has to be quoted when it holds the delimiter, the quote
    character or a character of the line terminator (QUOTE_MINIMAL). *)
Definition special (c : char) : bool :=
  (c =? comma) || (c =? dquote) || (c =? CR) || (c =? LF).

Definition needs_quote (s : str) : bool := existsb special s.

(** The field's characters, every quote character doubled. *)
Definition double_quotes (s : str) : str :=
  flat_map (fun c => if c =? dquote then [dquote; dquote] else [c]) s.

Definition csv_field (s : str) : str :=
  if needs_quote s then [dquote] ++ double_quotes s ++ [dquote] else s.

(** [writer.writerow(fields)] for fields already turned into text; the
    writer ends a row with CR LF. *)
Definition writerow (fields : list str) : str :=
  match fields with
  | [] => [CR; LF]
  | f :: fs => f ++ flat_map (fun g => comma :: g) fs ++ [CR; LF]
  end.

(** What Streamlit is asked to show. *)
Inductive message :=
| st_error (text : str)
| st_success (text : str).

(** The state [add_expense] acts on: the file, the session flag and the
    messages shown so far. *)
Record world := mkworld {
  file : option str;
  expenses_updated : bool;
  shown : list message
}.

Definition msg_empty_category : str := lit "Category cannot be empty!".
Definition msg_nonpositive : str := lit "Amount must be greater than 0!".
Definition msg_added : str := 9989 :: lit " Expense added successfully!".

(** [open("expenses.csv", "a")] followed by one write. *)
Definition append_file (f : option str) (text : str) : option str :=
  match f with
  | None => Some text
  | Some old => Some (old ++ text)
  end.

(** [add_expense(expense_date, category, amount)] *)
Definition add_expense (expense_date : date) (category : str) (amount : Z)
    (w : world) : bool * world :=
  if is_empty (strip category) then
    (false, mkworld (file w) (expenses_updated w)
              (shown w ++ [st_error msg_empty_category]))
  else if (amount <=? 0)%Z then
    (false, mkworld (file w) (expenses_updated w)
              (shown w ++ [st_error msg_nonpositive]))
  else
    let date_str := strftime_ymd expense_date in
    let row := writerow [date_str; csv_field (strip category);
                         repr_float amount] in
    (true, mkworld (append_file (file w) row) true
             (shown w ++ [st_success msg_added])).


(** ** Reading: the tokenizer of [pandas.read_csv]

    The states of pandas's C tokenizer that the call
    [pd.read_csv("expenses.csv", names=[...])] can reach: a comma as
    delimiter, the double quote as quote character, doubled quotes, no escape character, no comments,
    blank lines skipped. *)

Inductive tstate :=
| START_RECORD
| START_FIELD
| IN_FIELD
| IN_QUOTED_FIELD
| QUOTE_IN_QUOTED_FIELD
| EAT_CRNL
| EAT_CRNL_NOP
| WHITESPACE_LINE.

(** The tokenizer: its state, the characters of the field being read (in
    [WHITESPACE_LINE], the blanks seen so far), the fields of the line being
    read and the lines finished. *)
Record tok := mktok {
  state : tstate;
  pending : str;
  fields : list str;
  rows : list (list str)
}.

Definition tok_init : tok := mktok START_RECORD [] [] [].

Definition set_state (s : tstate) (t : tok) : tok :=
  mktok s (pending t) (fields t) (rows t).

Definition push_char (c : char) (t : tok) : tok :=
  mktok (state t) (pending t ++ [c]) (fields t) (rows t).

Definition end_field (t : tok) : tok :=
  mktok (state t) [] (fields t ++ [pending t]) (rows t).

Definition end_line (t : tok) : tok :=
  mktok (state t) (pending t) [] (rows t ++ [fields t]).

Definition drop_pending (t : tok) : tok :=
  mktok (state t) [] (fields t) (rows t).

(** IS_WHITESPACE of the tokenizer: a space or a tab. *)
Definition is_blank (c : char) : bool := (c =? 32) || (c =? 9).

Definition on_start_field (c : char) (t : tok) : tok :=
  if c =? LF then set_state START_RECORD (end_line (end_field t))
  else if c =? CR then set_state EAT_CRNL (end_field t)
  else if c =? dquote then set_state IN_QUOTED_FIELD t
  else if c =? comma then set_state START_FIELD (end_field t)
  else set_state IN_FIELD (push_char c t).

Definition on_in_field (c : char) (t : tok) : tok :=
  if c =? LF then set_state START_RECORD (end_line (end_field t))
  else if c =? CR then set_state EAT_CRNL (end_field t)
  else if c =? comma then set_state START_FIELD (end_field t)
  else set_state IN_FIELD (push_char c t).

Definition on_start_record (c : char) (t : tok) : tok :=
  if c =? LF then set_state START_RECORD t
  else if c =? CR then set_state EAT_CRNL_NOP t
  else if is_blank c then set_state WHITESPACE_LINE (push_char c t)
  else on_start_field c t.

(** One character of input. *)
Definition tok_step (t : tok) (c : char) : tok :=
  match state t with
  | START_RECORD => on_start_record c t
  | START_FIELD => on_start_field c t
  | IN_FIELD => on_in_field c t
  | IN_QUOTED_FIELD =>
      if c =? dquote then set_state QUOTE_IN_QUOTED_FIELD t
      else push_char c t
  | QUOTE_IN_QUOTED_FIELD =>
      if c =? dquote then set_state IN_QUOTED_FIELD (push_char c t)
      else on_in_field c t
  | EAT_CRNL =>
      if c =? LF then set_state START_RECORD (end_line t)
      else if c =? comma then set_state START_FIELD (end_field (end_line t))
      else on_start_record c (end_line t)
  | EAT_CRNL_NOP =>
      if c =? LF then set_state START_RECORD t
      else if c =? comma then set_state START_RECORD t
      else on_start_record c t
  | WHITESPACE_LINE =>
      if c =? LF then set_state START_RECORD (drop_pending t)
      else if c =? CR then set_state EAT_CRNL_NOP (drop_pending t)
      else if is_blank c then push_char c t
      else on_in_field c t
  end.

Definition tok_run (t : tok) (text : str) : tok := fold_left tok_step text t.

(** End of input ([parser_handle_eof]): a line under way is finished, and
    the end of input inside a quoted field is an error. *)
Definition tok_eof (t : tok) : option (list (list str)) :=
  match state t with
  | START_RECORD | WHITESPACE_LINE | EAT_CRNL_NOP => Some (rows t)
  | IN_QUOTED_FIELD => None
  | IN_FIELD | START_FIELD | QUOTE_IN_QUOTED_FIELD =>
      Some (rows (end_line (end_field t)))
  | EAT_CRNL => Some (rows (end_line t))
  end.

(** The lines of a text, each the list of its fields. *)
Definition tokenize (text : str) : option (list (list str)) :=
  tok_eof (tok_run tok_init text).


(** ** Reading: [pandas.read_csv] with three column names *)

(** The texts [read_csv] takes for a missing value (its default
    [na_values]); the empty text is one of them. *)
Definition na_values : list str :=
  map lit
    [""%string; "#N/A"%string; "#N/A N/A"%string; "#NA"%string;
     "-1.#IND"%string; "-1.#QNAN"%string; "-NaN"%string; "-nan"%string;
     "1.#IND"%string; "1.#QNAN"%string; "<NA>"%string; "N/A"%string;
     "NA"%string; "NULL"%string; "NaN"%string; "None"%string;
     "n/a"%string; "nan"%string; "null"%string].

Definition is_na (s : str) : bool := existsb (str_eqb s) na_values.

(** A cell of the frame: [None] is NaN. *)
Definition cell (s : str) : option str :=
  if is_na s then None else Some s.

(** The number of fields the tokenizer expects from the second line on:
    that of the first line, and no less than the three names. *)
Definition table_width (lines : list (list str)) : nat :=
  match lines with
  | [] => 3
  | l :: _ => Nat.max (length l) 3
  end.

(** A short line is completed with empty fields. *)
Definition pad_to (w : nat) (l : list str) : list str :=
  l ++ repeat [] (w - length l).

(** The cells under the names [date], [category], [amount]: the last three
    fields of the line (fields before them make the index). *)
Definition named_cells (w : nat) (l : list str)
    : option str * option str * option str :=
  match skipn (w - 3) (pad_to w l) with
  | [a; b; c] => (cell a, cell b, cell c)
  | _ => (None, None, None)
  end.

(** [pd.read_csv("expenses.csv", names=['date','category','amount'])].
    [None] stands for the ParserError the call raises: the end of input
    inside a quoted field, or a line after the first with more fields than
    expected.  The cells are kept as texts: pandas turns a column all of
    whose cells read as numbers (or as booleans) into a column of numbers,
    so that the cell 007 comes back as 7; the frame below is that of pandas
    for the columns that hold a cell no number is written like (see
    [plainly_text]). *)
Definition read_csv (text : str)
    : option (list (option str * option str * option str)) :=
  match tokenize text with
  | None => None
  | Some lines =>
      let w := table_width lines in
      if existsb (fun l => Nat.ltb w (length l)) (tl lines) then None
      else Some (map (named_cells w) lines)
  end.

(** [df.dropna().reset_index(drop=True)]: the rows without a missing cell. *)
Fixpoint dropna {A B C : Type} (df : list (option A * option B * option C))
    : list (A * B * C) :=
  match df with
  | [] => []
  | (Some a, Some b, Some c) :: rest => (a, b, c) :: dropna rest
  | _ :: rest => dropna rest
  end.

(** ** Reading: conversion of the columns *)

Fixpoint span (p : char -> bool) (s : str) : str * str :=
  match s with
  | [] => ([], [])
  | c :: t =>
      if p c then let (a, b) := span p t in (c :: a, b) else ([], s)
  end.

(** White space of the C locale. *)
Definition is_c_space (c : char) : bool :=
  (c =? 32) || ((9 <=? c) && (c <=? 13)).

Definition read_sign (s : str) : bool * str :=
  match s with
  | c :: t =>
      if c =? 45 then (true, t) else if c =? 43 then (false, t)
      else (false, s)
  | [] => (false, [])
  end.

(** An optional fraction: a point and digits. *)
Definition read_fraction (s : str) : str * str :=
  match s with
  | c :: t => if c =? 46 then span is_digit t else ([], s)
  | [] => ([], [])
  end.

(** An optional exponent; [None] when an [e] is followed by no digit. *)
Definition read_exponent (s : str) : option (Z * str) :=
  match s with
  | c :: t =>
      if (c =? 101) || (c =? 69) then
        let (neg, t1) := read_sign t in
        let (ds, t2) := span is_digit t1 in
        if is_empty ds then None
        else Some ((if neg then - Z.of_N (digits_value ds)
                    else Z.of_N (digits_value ds))%Z, t2)
      else Some (0%Z, s)
  | [] => Some (0%Z, [])
  end.

(** [m * 10^x] as a rational. *)
Definition scale10 (m x : Z) : Qc :=
  if (0 <=? x)%Z then Q2Qc ((m * 10 ^ x)%Z # 1)
  else Q2Qc (m # Z.to_pos (10 ^ (- x))).

(** One cell of [pd.to_numeric(column, errors='coerce')]: the number a
    decimal literal denotes (sign, digits, fraction, exponent, blanks
    around it), [None] (NaN) for any other text.  pandas reads a few more
    spellings (inf, -inf and Infinity give infinite amounts, which are
    kept); this function is that of pandas on the numerals in digits
    ([plain_decimal]) and on the texts no number is written like
    ([plainly_text]).  The value is the exact rational the numeral
    denotes; pandas holds the binary64 float nearest to it. *)
Definition to_numeric (s : str) : option Qc :=
  let s1 := snd (span is_c_space s) in
  let (neg, s2) := read_sign s1 in
  let (ip, s3) := span is_digit s2 in
  let (fp, s4) := read_fraction s3 in
  if is_empty ip && is_empty fp then None
  else
    match read_exponent s4 with
    | None => None
    | Some (ex, s5) =>
        if is_empty (snd (span is_c_space s5)) then
          let m := Z.of_N (digits_value (ip ++ fp)) in
          Some (scale10 (if neg then - m else m)
                        (ex - Z.of_nat (length fp)))
        else None
    end.

(** The first and the last day a pandas Timestamp can hold at midnight. *)
Definition timestamp_min : date := mkdate 1677 9 22.
Definition timestamp_max : date := mkdate 2262 4 11.

(** One cell of [pd.to_datetime(column, errors='coerce')]: the day an ISO
    text YYYY-MM-DD denotes, the format [add_expense] writes; [None] (NaT)
    for a text that is no calendar day or lies outside the range of a
    Timestamp in nanoseconds.  pandas reads a column as a whole: the first
    date settles the format in which the others are read, other spellings
    than this one are read too, and a column of digits is taken for
    nanoseconds.  This function is that of pandas on a column every date
    of which is such an ISO text within the range, where all the cells are
    read, each as the day it denotes.  The time of day, midnight for these
    texts, is left out. *)
Definition to_datetime (s : str) : option date :=
  match s with
  | [y1; y2; y3; y4; h1; m1; m2; h2; d1; d2] =>
      if all_digits [y1; y2; y3; y4; m1; m2; d1; d2]
         && (h1 =? 45) && (h2 =? 45)
      then
        let d := mkdate (digits_value [y1; y2; y3; y4])
                        (digits_value [m1; m2]) (digits_value [d1; d2]) in
        if valid_date d && date_leb timestamp_min d
           && date_leb d timestamp_max
        then Some d else None
      else None
  | _ => None
  end.

(** ** [load_expenses] *)

(** A row of the frame [load_expenses] returns. *)
Record expense := mkexpense {
  col_date : date;
  col_category : str;
  col_amount : Qc
}.

Definition msg_load_error : str := lit "Error loading expenses: ".

(** The conversions of lines 29 and 30 on one row.  (The two calls
    convert whole columns; the row-wise reading is that of pandas on the
    files of [plain_line], where no cell changes how another is read.) *)
Definition convert_row (r : str * str * str)
    : option date * option str * option Qc :=
  let '(d, c, a) := r in (to_datetime d, Some c, to_numeric a).

Definition expense_of_row (r : date * str * Qc) : expense :=
  let '(d, c, a) := r in mkexpense d c a.

(** [load_expenses()]: the frame returned and the world after the call.
    An exception of [read_csv] is reported with [st.error] (the text of
    the exception, which follows the prefix, is left out) and gives the
    empty frame. *)
Definition load_expenses (w : world) : list expense * world :=
  match file w with
  | None => ([], w)
  | Some text =>
      match read_csv text with
      | None =>
          ([], mkworld (file w) (expenses_updated w)
                 (shown w ++ [st_error msg_load_error]))
      | Some df =>
          let df := dropna df in
          if negb (Nat.eqb (length df) 0) then
            (map expense_of_row (dropna (map convert_row df)), w)
          else ([], w)
      end
  end.


(** ** Aggregation: [groupby(...)['amount'].sum()] *)

Local Open Scope Qc_scope.

(** [column.sum()] on the exact values of the amounts: it says which
    amounts are added.  The float the code computes is this sum up to the
    rounding of the additions, which depends on their order (see
    [float_sum]). *)
Definition total (l : list Qc) : Qc := fold_left Qcplus l 0.

(** One row enters the groups: the groups are kept in ascending order of
    their keys (groupby sorts its keys), and an amount is added to the sum
    of its group after the amounts of the rows before it. *)
Fixpoint group_add {K : Type} (cmp : K -> K -> comparison)
    (k : K) (a : Qc) (groups : list (K * Qc)) : list (K * Qc) :=
  match groups with
  | [] => [(k, a)]
  | (k', s) :: rest =>
      match cmp k k' with
      | Eq => (k', s + a) :: rest
      | Lt => (k, a) :: groups
      | Gt => (k', s) :: group_add cmp k a rest
      end
  end.

(** [df.groupby(key)['amount'].sum().reset_index()] over rows given as
    key and amount. *)
Definition groupby_sum {K : Type} (cmp : K -> K -> comparison)
    (rows : list (K * Qc)) : list (K * Qc) :=
  fold_left (fun groups r => group_add cmp (fst r) (snd r) groups) rows [].

(** Order of strings: by code points, a prefix first. *)
Fixpoint str_compare (a b : str) : comparison :=
  match a, b with
  | [], [] => Eq
  | [], _ :: _ => Lt
  | _ :: _, [] => Gt
  | x :: a', y :: b' =>
      match (x ?= y)%N with
      | Eq => str_compare a' b'
      | c => c
      end
  end.

(** A monthly period: year and month. *)
Definition period := (N * N)%type.

(** [ts.to_period('M')] *)
Definition to_period_M (d : date) : period := (year d, month d).

Definition period_compare (p q : period) : comparison :=
  match (fst p ?= fst q)%N with
  | Eq => (snd p ?= snd q)%N
  | c => c
  end.

(** [str(period)]: YYYY-MM. *)
Definition period_str (p : period) : str :=
  pad4 (fst p) ++ lit "-" ++ pad2 (snd p).

(** [create_monthly_summary(df)]: rows of Month and Total Amount. *)
Definition create_monthly_summary (df : list expense) : list (str * Qc) :=
  if Nat.eqb (length df) 0 then []
  else
    let df_copy := map (fun e => (to_period_M (col_date e), col_amount e)) df in
    let monthly_summary := groupby_sum period_compare df_copy in
    map (fun r => (period_str (fst r), snd r)) monthly_summary.

(** Insertion into an ascending list, after the rows of a smaller total
    and before the first row whose total is not smaller. *)
Fixpoint insert_by_total {K : Type} (r : K * Qc) (l : list (K * Qc))
    : list (K * Qc) :=
  match l with
  | [] => [r]
  | r' :: rest =>
      match snd r' ?= snd r with
      | Lt => r' :: insert_by_total r rest
      | _ => r :: l
      end
  end.

(** Ascending sort on the total.  numpy's default sort, which
    [sort_values] runs, leaves the order of rows of equal total open (it
    is not a stable sort); the insertion sort below is one such sort, and
    the properties stated of the category summary hold whatever the order
    of rows of equal total. *)
Fixpoint argsort_total {K : Type} (l : list (K * Qc)) : list (K * Qc) :=
  match l with
  | [] => []
  | r :: rest => insert_by_total r (argsort_total rest)
  end.

(** [frame.sort_values('Total Amount', ascending=False)]: pandas reverses
    the column, sorts it in ascending order and reverses the outcome. *)
Definition sort_values_desc {K : Type} (l : list (K * Qc)) : list (K * Qc) :=
  rev (argsort_total (rev l)).

(** [create_category_summary(df)]: rows of Category and Total Amount. *)
Definition create_category_summary (df : list expense) : list (str * Qc) :=
  if Nat.eqb (length df) 0 then []
  else
    let category_summary :=
      groupby_sum str_compare
        (map (fun e => (col_category e, col_amount e)) df) in
    sort_values_desc category_summary.

(** ** The filters of the tab of all expenses (lines 233 to 243) *)

Definition filter_category (selected_category : str) (df : list expense)
    : list expense :=
  if negb (str_eqb selected_category (lit "All")) then
    filter (fun e => str_eqb (col_category e) selected_category) df
  else df.

(** [date_range] is the tuple the date input returns: the filter applies
    when it holds two dates. *)
Definition filter_date_range (date_range : list date) (df : list expense)
    : list expense :=
  match date_range with
  | [start_date; end_date] =>
      filter (fun e => date_leb start_date (col_date e)
                       && date_leb (col_date e) end_date) df
  | _ => df
  end.


(** ** Notions the properties are stated with *)

(** Dates in order, as a proposition. *)
Definition date_le (a b : date) : Prop :=
  (year a < year b)%N
  \/ (year a = year b
      /\ ((month a < month b)%N \/ (month a = month b /\ (day a <= day b)%N))).

(** The number of characters after the first point of a text. *)
Fixpoint fraction_digits (s : str) : nat :=
  match s with
  | [] => 0
  | c :: t => if (c =? 46)%N then length t else fraction_digits t
  end.

(** A file every line of which is finished and has three fields at most:
    the tokenizer is back at the start of a record at its end. *)
Definition complete_store (f : option str) : bool :=
  match f with
  | None => true
  | Some old =>
      let t := tok_run tok_init old in
      match state t with
      | START_RECORD =>
          is_empty (pending t) && Nat.eqb (length (fields t)) 0
          && forallb (fun l => Nat.leb (length l) 3) (rows t)
      | _ => false
      end
  end.

(** What one line of the file stands for, taken by itself: a record when
    it has a date, a category and an amount that read well, nothing
    otherwise. *)
Definition decode_line (l : list str) : option expense :=
  match pad_to 3 l with
  | [d; c; a] =>
      if is_na d || is_na c || is_na a then None
      else
        match to_datetime d, to_numeric a with
        | Some d', Some a' => Some (mkexpense d' c a')
        | _, _ => None
        end
  | _ => None
  end.

Fixpoint keep_some {A : Type} (l : list (option A)) : list A :=
  match l with
  | [] => []
  | Some a :: rest => a :: keep_some rest
  | None :: rest => keep_some rest
  end.

(** The category summary in the words of the specification: the groups in
    the order in which their categories first occur, then a stable sort by
    descending total. *)
Fixpoint first_seen_add (k : str) (a : Qc) (groups : list (str * Qc))
    : list (str * Qc) :=
  match groups with
  | [] => [(k, a)]
  | (k', s) :: rest =>
      if str_eqb k k' then (k', s + a) :: rest
      else (k', s) :: first_seen_add k a rest
  end.

Fixpoint insert_desc (r : str * Qc) (l : list (str * Qc))
    : list (str * Qc) :=
  match l with
  | [] => [r]
  | r' :: rest =>
      match snd r' ?= snd r with
      | Gt => r' :: insert_desc r rest
      | _ => r :: l
      end
  end.

Definition category_summary_first_seen (df : list expense)
    : list (str * Qc) :=
  fold_right insert_desc []
    (fold_left
       (fun groups e => first_seen_add (col_category e) (col_amount e) groups)
       df []).

(** The amounts of the rows of a category, and of a month. *)
Definition amounts_of_category (c : str) (df : list expense) : list Qc :=
  map col_amount (filter (fun e => str_eqb (col_category e) c) df).

Definition amounts_of_month (y m : N) (df : list expense) : list Qc :=
  map col_amount
    (filter (fun e => (year (col_date e) =? y)%N
                      && (month (col_date e) =? m)%N) df).


(** Rows of groups in ascending order of their keys. *)
Definition key_lt {K : Type} (cmp : K -> K -> comparison)
    (r1 r2 : K * Qc) : Prop :=
  cmp (fst r1) (fst r2) = Lt.

(** The sum recorded for a key, if any. *)
Fixpoint lookup {K : Type} (cmp : K -> K -> comparison)
    (k : K) (groups : list (K * Qc)) : option Qc :=
  match groups with
  | [] => None
  | (k', s) :: rest =>
      match cmp k k' with Eq => Some s | _ => lookup cmp k rest end
  end.

(** The amounts of the rows of key [k]. *)
Definition amounts_of {K : Type} (cmp : K -> K -> comparison)
    (k : K) (rows : list (K * Qc)) : list Qc :=
  map snd
    (filter (fun r => match cmp (fst r) k with Eq => true | _ => false end)
       rows).

(** Rows in ascending order of total, rows of equal total in descending
    order of their keys. *)
Definition asc_total_then_key {K : Type} (cmp : K -> K -> comparison)
    (r1 r2 : K * Qc) : Prop :=
  snd r1 < snd r2 \/ (snd r1 = snd r2 /\ cmp (fst r2) (fst r1) = Lt).

(** The characters of the dates and amounts [add_expense] writes: digits,
    the hyphen and the point. *)
Definition is_plain (c : char) : bool :=
  is_digit c || (c =? 45)%N || (c =? 46)%N.

(** ** The dashboard of [main]: statistics, options and default range *)

(** A count as a number. *)
Definition count_Qc (n : nat) : Qc := Q2Qc (Z.of_nat n # 1).

(** [column.mean()] on the exact values of the amounts; the float the
    page shows is this up to rounding. *)
Definition mean (l : list Qc) : Qc := total l / count_Qc (length l).

(** [column.unique()]: the values in the order in which they first
    occur. *)
Definition unique (l : list str) : list str :=
  fold_left (fun seen x => if existsb (str_eqb x) seen then seen
                           else seen ++ [x]) l [].

(** [column.nunique()] *)
Definition nunique (l : list str) : nat := length (unique l).

(** The four metrics of lines 141 to 151. *)
Record metrics := mkmetrics {
  total_expenses : Qc;
  number_of_transactions : nat;
  average_transaction : Qc;
  categories_used : nat
}.

(** Lines 133 to 151: nothing but a notice for an empty frame ([main]
    returns there), the four metrics otherwise. *)
Definition statistics (df : list expense) : option metrics :=
  if Nat.eqb (length df) 0 then None
  else Some (mkmetrics (total (map col_amount df)) (length df)
               (mean (map col_amount df))
               (nunique (map col_category df))).

Fixpoint insert_str (x : str) (l : list str) : list str :=
  match l with
  | [] => [x]
  | y :: rest =>
      match str_compare y x with
      | Gt => x :: l
      | _ => y :: insert_str x rest
      end
  end.

(** [sorted(l)] on strings. *)
Definition sorted (l : list str) : list str :=
  fold_left (fun acc x => insert_str x acc) l [].

(** Line 218: the options of the category filter. *)
Definition category_options (df : list expense) : list str :=
  lit "All" :: sorted (unique (map col_category df)).

(** [column.min()] and [column.max()] on dates; [None] stands for the NaT
    of an empty column, which [main] never asks for. *)
Definition min_date (df : list expense) : option date :=
  match df with
  | [] => None
  | e :: rest =>
      Some (fold_left (fun m x => if date_leb (col_date x) m then col_date x
                                  else m) rest (col_date e))
  end.

Definition max_date (df : list expense) : option date :=
  match df with
  | [] => None
  | e :: rest =>
      Some (fold_left (fun m x => if date_leb m (col_date x) then col_date x
                                  else m) rest (col_date e))
  end.

(** Lines 233 to 243: the category filter, then the date filter. *)
Definition filtered (selected_category : str) (date_range : list date)
    (df : list expense) : list expense :=
  filter_date_range date_range (filter_category selected_category df).

(** ** Further notions the properties are stated with *)

(** Dates compared: by year, then month, then day. *)
Definition date_compare (a b : date) : comparison :=
  match (year a ?= year b)%N with
  | Eq => match (month a ?= month b)%N with
          | Eq => (day a ?= day b)%N
          | c => c
          end
  | c => c
  end.

(** A date a pandas Timestamp can hold. *)
Definition in_timestamp_range (d : date) : bool :=
  valid_date d && date_leb timestamp_min d && date_leb d timestamp_max.

(** One submission of the form: date, category, amount. *)
Definition submission := (date * str * Z)%type.

(** The form submitted once, and several times in a row ([main] runs
    again after every submission). *)
Definition submit (w : world) (i : submission) : world :=
  let '(d, c, a) := i in snd (add_expense d c a w).

Definition submit_all (inputs : list submission) (w : world) : world :=
  fold_left submit inputs w.

(** The submissions that come back on reload: those [add_expense] accepts
    and whose trimmed category pandas does not take for a missing value. *)
Definition comes_back (i : submission) : bool :=
  let '(d, c, a) := i in
  negb (is_empty (strip c)) && (0 <? a)%Z && negb (is_na (strip c)).

Definition record_of (i : submission) : expense :=
  let '(d, c, a) := i in mkexpense d (strip c) (amount_of_cents a).

(** ** Files that pandas reads as the converters above do *)

(** pandas settles the type of a column, and the format of its dates, on
    the column as a whole: a column every cell of which reads as a number
    becomes a column of numbers, the words for true and false give
    booleans, and the first date decides how the others are read.  The
    converters above take each cell by itself.  Both read the same frame
    from a file whose lines are as described here. *)

Definition lower (c : char) : char :=
  if (65 <=? c)%N && (c <=? 90)%N then (c + 32)%N else c.

(** A character that can stand in a number as pandas reads one: a digit,
    a sign, the point, white space, and the letters of an exponent, of
    inf, of infinity and of nan, in either case. *)
Definition number_char (c : char) : bool :=
  is_digit c || is_c_space c || (c =? 43)%N || (c =? 45)%N || (c =? 46)%N
  || existsb (N.eqb (lower c)) (lit "aefinty").

(** The words a column of booleans is read from, in any case. *)
Definition bool_word (s : str) : bool :=
  str_eqb (map lower s) (lit "true") || str_eqb (map lower s) (lit "false").

(** A text that cannot be taken for a number or a boolean: it holds a
    character no number is written with, and is no word for true or
    false.  A column holding such a cell stays a column of texts, and
    [to_numeric] gives NaN for such a cell. *)
Definition plainly_text (s : str) : bool :=
  existsb (fun c => negb (number_char c)) s && negb (bool_word s).

(** A number in digits, with a sign and a point at most. *)
Definition plain_decimal (s : str) : bool :=
  forallb is_plain s
  && match to_numeric s with Some _ => true | None => false end.

(** A line of three fields at most which, when none of its three cells is
    missing, has for its date an ISO text of a day a Timestamp can hold,
    for its category a text that cannot be taken for a number or a
    boolean, and for its amount a number in digits or a text that cannot
    be taken for a number. *)
Definition plain_line (l : list str) : bool :=
  match pad_to 3 l with
  | [d; c; a] =>
      is_na d || is_na c || is_na a
      || (match to_datetime d with Some _ => true | None => false end
          && plainly_text c
          && (plain_decimal a || plainly_text a))
  | _ => false
  end.


(** A file of complete lines, all of them of this kind. *)
Definition plain_store (f : option str) : bool :=
  complete_store f
  && match f with
     | None => true
     | Some old => forallb plain_line (rows (tok_run tok_init old))
     end.

(** A submission whose line, if one is written, is of this kind: a date a
    Timestamp can hold, an amount within [amount_bound], and a category
    which, trimmed, is empty, a missing-value marker, or a text that
    cannot be taken for a number or a boolean. *)
Definition plain_submission (i : submission) : bool :=
  let '(d, c, a) := i in
  in_timestamp_range d && (a <? amount_bound)%Z
  && (is_empty (strip c) || is_na (strip c) || plainly_text (strip c)).

(** ** The groups of the summaries, and sums of binary64 floats *)

(** Rows of a key and an amount gathered by key: the keys in ascending
    order (groupby sorts its keys), the amounts of a key in the order of
    the rows. *)
Fixpoint group_insert {K A : Type} (cmp : K -> K -> comparison)
    (k : K) (a : A) (groups : list (K * list A)) : list (K * list A) :=
  match groups with
  | [] => [(k, [a])]
  | (k', l) :: rest =>
      match cmp k k' with
      | Eq => (k', l ++ [a]) :: rest
      | Lt => (k, [a]) :: groups
      | Gt => (k', l) :: group_insert cmp k a rest
      end
  end.

Definition groupby {K A : Type} (cmp : K -> K -> comparison)
    (rows : list (K * A)) : list (K * list A) :=
  fold_left (fun groups r => group_insert cmp (fst r) (snd r) groups) rows [].

(** The groups of [create_monthly_summary] and of
    [create_category_summary], over rows of date, category and amount,
    whatever the amounts are. *)
Definition monthly_groups {A : Type} (df : list (date * str * A))
    : list (period * list A) :=
  groupby period_compare
    (map (fun r => (to_period_M (fst (fst r)), snd r)) df).

Definition category_groups {A : Type} (df : list (date * str * A))
    : list (str * list A) :=
  groupby str_compare (map (fun r => (snd (fst r), snd r)) df).

(** The rows of the monthly summary, and those of the category summary
    in the order of the grouping (which [sort_values] then permutes), for
    a given way [sum] of adding the amounts of a group. *)
Definition monthly_totals {A B : Type} (sum : list A -> B)
    (df : list (date * str * A)) : list (str * B) :=
  map (fun g => (period_str (fst g), sum (snd g))) (monthly_groups df).

Definition category_totals {A B : Type} (sum : list A -> B)
    (df : list (date * str * A)) : list (str * B) :=
  map (fun g => (fst g, sum (snd g))) (category_groups df).

(** A row of the frame as a triple. *)
Definition row_of_expense (e : expense) : date * str * Qc :=
  (col_date e, col_category e, col_amount e).




(** * Properties *)

(** [lia] reads quotients and remainders by a constant. *)
Ltac Zify.zify_post_hook ::= Z.to_euclidean_division_equations.

(** ** Strings and digits *)

Lemma str_eqb_eq (a b : str) : str_eqb a b = true <-> a = b.
Proof.
  revert b; induction a as [|x a IH]; intros [|y b]; simpl;
    try (split; [discriminate | discriminate]); try tauto.
  rewrite andb_true_iff, N.eqb_eq, IH.
  split; [intros [-> ->]; reflexivity | intros [= -> ->]; auto].
Qed.

Lemma str_eqb_refl (a : str) : str_eqb a a = true.
Proof. apply str_eqb_eq; reflexivity. Qed.

Lemma str_eqb_neq (a b : str) : str_eqb a b = false <-> a <> b.
Proof.
  rewrite <- str_eqb_eq. destruct (str_eqb a b); split; congruence.
Qed.

Lemma is_empty_true (s : str) : is_empty s = true <-> s = [].
Proof. destruct s; simpl; split; congruence. Qed.

Lemma In_lstrip (x : char) (s : str) :
  In x s -> isspace x = false -> In x (lstrip s).
Proof.
  intros Hin Hx. induction s as [|c s IH]; [destruct Hin|].
  simpl. destruct (isspace c) eqn:Hc.
  - destruct Hin as [->|Hin]; [congruence | now apply IH].
  - exact Hin.
Qed.

(** Trimming keeps every character that is not white space. *)
Lemma In_strip (x : char) (s : str) :
  In x s -> isspace x = false -> In x (strip s).
Proof.
  intros Hin Hx. unfold strip, rstrip.
  apply in_rev. rewrite rev_involutive.
  apply In_lstrip; [|exact Hx]. apply in_rev. rewrite rev_involutive.
  now apply In_lstrip.
Qed.

Lemma digit_val_char (d : N) : digit_val (digit_char d) = d.
Proof. unfold digit_val, digit_char. lia. Qed.

Lemma is_digit_char (d : N) : (d < 10)%N -> is_digit (digit_char d) = true.
Proof.
  intros H. unfold is_digit, digit_char.
  apply andb_true_iff; split; apply N.leb_le; lia.
Qed.

Lemma digits_value_acc (s : str) (acc : N) :
  fold_left (fun a c => a * 10 + digit_val c)%N s acc
  = (acc * 10 ^ N.of_nat (length s) + digits_value s)%N.
Proof.
  unfold digits_value. revert acc.
  induction s as [|c s IH]; intros acc.
  - simpl. lia.
  - cbn [fold_left length]. rewrite IH, (IH (0 * 10 + digit_val c)%N).
    rewrite Nat2N.inj_succ, N.pow_succ_r'. lia.
Qed.

Lemma digits_value_app (s t : str) :
  digits_value (s ++ t)
  = (digits_value s * 10 ^ N.of_nat (length t) + digits_value t)%N.
Proof.
  unfold digits_value at 1. rewrite fold_left_app.
  fold (digits_value s). apply digits_value_acc.
Qed.

Lemma digits_fuel_spec (fuel : nat) (n : N) :
  (n < 2 ^ N.of_nat fuel)%N -> fuel <> O ->
  digits_value (map digit_char (digits_fuel fuel n)) = n
  /\ Forall (fun d => d < 10)%N (digits_fuel fuel n)
  /\ digits_fuel fuel n <> [].
Proof.
  revert n. induction fuel as [|f IH]; intros n Hn Hf; [congruence|].
  cbn [digits_fuel]. destruct (N.ltb_spec n 10) as [Hlt|Hge].
  - repeat split.
    + unfold digits_value; simpl. rewrite digit_val_char. lia.
    + constructor; [assumption | constructor].
    + discriminate.
  - assert (Hdiv : (n / 10 < 2 ^ N.of_nat f)%N).
    { rewrite Nat2N.inj_succ, N.pow_succ_r' in Hn.
      apply N.Div0.div_lt_upper_bound. lia. }
    destruct f as [|f'].
    { simpl in Hdiv. assert (n / 10 = 0)%N by lia.
      apply N.div_small_iff in H; lia. }
    destruct (IH (n / 10)%N Hdiv ltac:(discriminate)) as (Hv & Hall & Hne).
    repeat split.
    + rewrite map_app, digits_value_app, Hv. simpl.
      unfold digits_value; simpl. rewrite digit_val_char.
      pose proof (N.div_mod n 10). lia.
    + apply Forall_app; split; [assumption|].
      constructor; [|constructor].
      apply N.mod_lt; lia.
    + intros E. apply app_eq_nil in E. destruct E; discriminate.
Qed.

Lemma digits_spec (n : N) :
  digits_value (str_of_N n) = n
  /\ Forall (fun d => d < 10)%N (digits n)
  /\ digits n <> [].
Proof.
  unfold str_of_N, digits. apply digits_fuel_spec; [|discriminate].
  rewrite Nat2N.inj_succ, N2Nat.id, N.pow_succ_r'.
  pose proof (N.size_gt n). lia.
Qed.

Lemma all_digits_map (ds : list N) :
  Forall (fun d => d < 10)%N ds -> all_digits (map digit_char ds) = true.
Proof.
  induction 1 as [|d ds Hd _ IH]; simpl; [reflexivity|].
  rewrite is_digit_char by assumption. exact IH.
Qed.

Lemma all_digits_str_of_N (n : N) : all_digits (str_of_N n) = true.
Proof. apply all_digits_map, digits_spec. Qed.

Lemma str_of_N_nonempty (n : N) : str_of_N n <> [].
Proof.
  unfold str_of_N. destruct (digits_spec n) as (_ & _ & H).
  destruct (digits n); [congruence | discriminate].
Qed.

(** ** Validation in [add_expense] *)

(** C6: when the trimmed category is empty or the amount is not positive,
    [add_expense] returns [False], shows the error of the first rule that
    fails (the category rule is tested first, so its message is shown when
    both fail), and leaves the file and the session flag as they were. *)
Theorem add_expense_rejects_invalid (d : date) (c : str) (a : Z) (w : world) :
  is_empty (strip c) = true \/ (a <= 0)%Z ->
  fst (add_expense d c a w) = false
  /\ file (snd (add_expense d c a w)) = file w
  /\ expenses_updated (snd (add_expense d c a w)) = expenses_updated w
  /\ shown (snd (add_expense d c a w))
     = shown w ++ [st_error (if is_empty (strip c) then msg_empty_category
                             else msg_nonpositive)].
Proof.
  intros H. unfold add_expense.
  destruct (is_empty (strip c)) eqn:Hc; simpl; [repeat split|].
  destruct H as [H|H]; [discriminate|].
  apply Z.leb_le in H. rewrite H. simpl. repeat split.
Qed.

Lemma add_expense_rejects_invalid_witness :
  let w := mkworld (Some (lit "2024-01-15,Food,10.0")) false [] in
  let r := add_expense (mkdate 2024 1 15) (lit "   ") (-500) w in
  fst r = false /\ file (snd r) = file w
  /\ shown (snd r) = [st_error msg_empty_category].
Proof.
  intros w r.
  destruct (add_expense_rejects_invalid (mkdate 2024 1 15) (lit "   ")
              (-500) w) as (H1 & H2 & _ & H4).
  - left. reflexivity.
  - split; [exact H1 | split; [exact H2 | exact H4]].
Defined.

(** ** The date filter *)

Lemma date_leb_le (a b : date) : date_leb a b = true <-> date_le a b.
Proof.
  unfold date_leb, date_le.
  rewrite orb_true_iff, andb_true_iff, orb_true_iff, andb_true_iff.
  rewrite !N.ltb_lt, !N.eqb_eq, N.leb_le. tauto.
Qed.

Lemma date_le_trans (a b c : date) : date_le a b -> date_le b c -> date_le a c.
Proof. unfold date_le. lia. Qed.

(** C8: with a range of two dates the filter keeps the rows whose date
    lies between them, bounds included, in their order, and nothing else;
    when the first date is after the second no row is kept (the bounds
    are not swapped, and nothing is raised: the filter is a total
    function). *)
Theorem filter_date_range_inclusive (df : list expense)
    (start_date end_date : date) :
  (forall e, In e (filter_date_range [start_date; end_date] df)
             <-> In e df /\ date_le start_date (col_date e)
                 /\ date_le (col_date e) end_date)
  /\ (forall df1 df2,
        filter_date_range [start_date; end_date] (df1 ++ df2)
        = filter_date_range [start_date; end_date] df1
          ++ filter_date_range [start_date; end_date] df2)
  /\ (~ date_le start_date end_date ->
      filter_date_range [start_date; end_date] df = []).
Proof.
  unfold filter_date_range. split; [|split].
  - intros e. rewrite filter_In, andb_true_iff, !date_leb_le. tauto.
  - intros df1 df2. apply filter_app.
  - intros Hgt. induction df as [|e df IH]; simpl; [reflexivity|].
    destruct (date_leb start_date (col_date e)) eqn:H1;
      destruct (date_leb (col_date e) end_date) eqn:H2; simpl; try exact IH.
    exfalso. apply Hgt.
    apply date_leb_le in H1. apply date_leb_le in H2.
    exact (date_le_trans _ _ _ H1 H2).
Qed.

Lemma filter_date_range_inclusive_witness :
  filter_date_range [mkdate 2024 2 1; mkdate 2024 1 1]
    [mkexpense (mkdate 2024 1 15) (lit "Food") (Q2Qc 10)] = [].
Proof.
  apply (filter_date_range_inclusive
           [mkexpense (mkdate 2024 1 15) (lit "Food") (Q2Qc 10)]
           (mkdate 2024 2 1) (mkdate 2024 1 1)).
  unfold date_le; simpl. lia.
Defined.

(** ** Sums *)

Lemma fold_total (l : list Qc) (a : Qc) : fold_left Qcplus l a = a + total l.
Proof.
  unfold total. revert a. induction l as [|x l IH]; intros a; simpl.
  - ring.
  - rewrite IH, (IH (0 + x)). ring.
Qed.

Lemma total_cons (x : Qc) (l : list Qc) : total (x :: l) = x + total l.
Proof. unfold total at 1. simpl. rewrite fold_total. ring. Qed.

Lemma total_app (l1 l2 : list Qc) : total (l1 ++ l2) = total l1 + total l2.
Proof.
  induction l1 as [|x l1 IH]; simpl.
  - unfold total at 2. simpl. ring.
  - rewrite !total_cons, IH. ring.
Qed.

Lemma total_rev (l : list Qc) : total (rev l) = total l.
Proof.
  induction l as [|x l IH]; simpl; [reflexivity|].
  rewrite total_app, IH, !total_cons. unfold total at 2; simpl. ring.
Qed.

(** ** Grouping *)

Section Grouping.

Variable K : Type.
Variable cmp : K -> K -> comparison.
Hypothesis cmp_eq : forall a b, cmp a b = Eq <-> a = b.
Hypothesis cmp_opp : forall a b, cmp b a = CompOpp (cmp a b).
Hypothesis cmp_trans :
  forall a b c, cmp a b = Lt -> cmp b c = Lt -> cmp a c = Lt.

Local Abbreviation key_lt := (key_lt cmp).
Local Abbreviation lookup := (lookup cmp).
Local Abbreviation amounts_of := (amounts_of cmp).

Lemma cmp_refl (a : K) : cmp a a = Eq.
Proof. apply cmp_eq; reflexivity. Qed.

Lemma cmp_gt_lt (a b : K) : cmp a b = Gt -> cmp b a = Lt.
Proof. intros H. rewrite cmp_opp, H. reflexivity. Qed.

Lemma group_add_keys (k : K) (a : Qc) (g : list (K * Qc)) (r : K * Qc) :
  In r (group_add cmp k a g) -> fst r = k \/ In (fst r) (map fst g).
Proof.
  induction g as [|[k' s] g IH]; simpl.
  - intros [<-|[]]; auto.
  - destruct (cmp k k') eqn:E; simpl.
    + intros [<-|H]; simpl; [auto|]. right; right. now apply in_map.
    + intros [<-|[<-|H]]; simpl; auto. right; right. now apply in_map.
    + intros [<-|H]; simpl; [auto|]. destruct (IH H); auto.
Qed.

Lemma group_add_sorted (k : K) (a : Qc) (g : list (K * Qc)) :
  StronglySorted key_lt g -> StronglySorted key_lt (group_add cmp k a g).
Proof.
  induction 1 as [|[k' s] g Hs IH Hall]; simpl.
  - repeat constructor.
  - destruct (cmp k k') eqn:E.
    + constructor; [assumption|]. exact Hall.
    + constructor; [constructor; assumption|].
      constructor; [exact E|].
      eapply Forall_impl; [|exact Hall].
      intros r Hr. unfold key_lt in *; simpl in *. eapply cmp_trans; eauto.
    + constructor; [exact IH|].
      apply Forall_forall. intros r Hr.
      destruct (group_add_keys _ _ _ _ Hr) as [Hk|Hin].
      * unfold key_lt; simpl. rewrite Hk. now apply cmp_gt_lt.
      * apply in_map_iff in Hin. destruct Hin as (r' & Hf & Hin).
        rewrite Forall_forall in Hall. specialize (Hall r' Hin).
        unfold key_lt in *. now rewrite <- Hf.
Qed.

Lemma groupby_sum_snoc (rows : list (K * Qc)) (r : K * Qc) :
  groupby_sum cmp (rows ++ [r])
  = group_add cmp (fst r) (snd r) (groupby_sum cmp rows).
Proof. unfold groupby_sum. rewrite fold_left_app. reflexivity. Qed.

Lemma groupby_sum_sorted (rows : list (K * Qc)) :
  StronglySorted key_lt (groupby_sum cmp rows).
Proof.
  induction rows as [|r rows IH] using rev_ind.
  - constructor.
  - rewrite groupby_sum_snoc. now apply group_add_sorted.
Qed.

Lemma lookup_below (k : K) (g : list (K * Qc)) :
  Forall (fun r => cmp k (fst r) = Lt) g -> lookup k g = None.
Proof.
  induction 1 as [|[k' s] g Hk _ IH]; simpl; [reflexivity|].
  simpl in Hk. rewrite Hk. exact IH.
Qed.

Lemma lookup_group_add (k0 k : K) (a : Qc) (g : list (K * Qc)) :
  StronglySorted key_lt g ->
  lookup k0 (group_add cmp k a g)
  = match cmp k0 k with
    | Eq => Some (match lookup k g with Some s => s + a | None => a end)
    | _ => lookup k0 g
    end.
Proof.
  induction 1 as [|[k' s] g Hs IH Hall]; simpl.
  - destruct (cmp k0 k); reflexivity.
  - destruct (cmp k k') eqn:E; simpl.
    + apply cmp_eq in E. subst k'.
      destruct (cmp k0 k); reflexivity.
    + assert (Hnone : lookup k g = None).
      { apply lookup_below. eapply Forall_impl; [|exact Hall].
        intros r Hr. unfold key_lt in Hr; simpl in Hr.
        eapply cmp_trans; eauto. }
      rewrite Hnone. destruct (cmp k0 k) eqn:E0; reflexivity.
    + rewrite IH. destruct (cmp k0 k) eqn:E0.
      * apply cmp_eq in E0. subst k0. rewrite E. reflexivity.
      * reflexivity.
      * reflexivity.
Qed.

Lemma amounts_of_snoc (k : K) (rows : list (K * Qc)) (r : K * Qc) :
  amounts_of k (rows ++ [r])
  = amounts_of k rows
    ++ match cmp (fst r) k with Eq => [snd r] | _ => [] end.
Proof.
  unfold amounts_of. rewrite filter_app, map_app. simpl.
  destruct (cmp (fst r) k); reflexivity.
Qed.

(** The groups hold, for every key that occurs, the sum of the amounts
    of its rows, and nothing for a key that does not occur. *)
Lemma lookup_groupby_sum (k : K) (rows : list (K * Qc)) :
  lookup k (groupby_sum cmp rows)
  = match amounts_of k rows with
    | [] => None
    | l => Some (total l)
    end.
Proof.
  induction rows as [|r rows IH] using rev_ind; [reflexivity|].
  rewrite groupby_sum_snoc, lookup_group_add by apply groupby_sum_sorted.
  rewrite amounts_of_snoc, (cmp_opp k (fst r)).
  destruct (cmp k (fst r)) eqn:E; simpl.
  - apply cmp_eq in E. subst k. rewrite IH.
    destruct (amounts_of (fst r) rows) as [|x l] eqn:El; simpl.
    + unfold total; simpl. f_equal. ring.
    + f_equal. change (x :: l ++ [snd r]) with ((x :: l) ++ [snd r]).
      rewrite total_app. unfold total at 3; simpl. ring.
  - rewrite app_nil_r. exact IH.
  - rewrite app_nil_r. exact IH.
Qed.

Lemma lookup_In (k : K) (s : Qc) (g : list (K * Qc)) :
  StronglySorted key_lt g -> (In (k, s) g <-> lookup k g = Some s).
Proof.
  induction 1 as [|[k' s'] g Hs IH Hall]; simpl.
  - split; [tauto | discriminate].
  - destruct (cmp k k') eqn:E.
    + apply cmp_eq in E. subst k'. split.
      * intros [[= ->]|Hin]; [reflexivity|].
        rewrite Forall_forall in Hall. specialize (Hall _ Hin).
        unfold key_lt in Hall; simpl in Hall.
        rewrite cmp_refl in Hall. discriminate.
      * intros [= ->]. auto.
    + rewrite <- IH. split; [|auto].
      intros [[= -> ->]|Hin]; [|exact Hin].
      rewrite cmp_refl in E. discriminate.
    + rewrite <- IH. split; [|auto].
      intros [[= -> ->]|Hin]; [|exact Hin].
      rewrite cmp_refl in E. discriminate.
Qed.

Lemma amounts_of_nonempty (k : K) (rows : list (K * Qc)) :
  amounts_of k rows <> [] <-> In k (map fst rows).
Proof.
  unfold amounts_of. induction rows as [|[k' a] rows IH]; simpl.
  - tauto.
  - destruct (cmp k' k) eqn:E; simpl.
    + apply cmp_eq in E. split; [auto | discriminate].
    + rewrite IH. split; [auto|]. intros [->|H]; [|exact H].
      rewrite cmp_refl in E. discriminate.
    + rewrite IH. split; [auto|]. intros [->|H]; [|exact H].
      rewrite cmp_refl in E. discriminate.
Qed.

(** A row of the groups: a key that occurs, with the sum of its
    amounts. *)
Lemma In_groupby_sum (k : K) (s : Qc) (rows : list (K * Qc)) :
  In (k, s) (groupby_sum cmp rows)
  <-> In k (map fst rows) /\ s = total (amounts_of k rows).
Proof.
  rewrite lookup_In by apply groupby_sum_sorted.
  rewrite lookup_groupby_sum, <- amounts_of_nonempty.
  destruct (amounts_of k rows) as [|x l].
  - split; [discriminate | intros [H _]; congruence].
  - split; [intros [= <-]; split; [discriminate | reflexivity]
           | intros [_ ->]; reflexivity].
Qed.

Lemma group_add_total (k : K) (a : Qc) (g : list (K * Qc)) :
  total (map snd (group_add cmp k a g)) = total (map snd g) + a.
Proof.
  induction g as [|[k' s] g IH]; simpl.
  - rewrite total_cons. ring.
  - destruct (cmp k k'); simpl; rewrite ?total_cons, ?IH; simpl; ring.
Qed.

(** Grouping keeps the grand total. *)
Lemma groupby_sum_total (rows : list (K * Qc)) :
  total (map snd (groupby_sum cmp rows)) = total (map snd rows).
Proof.
  induction rows as [|r rows IH] using rev_ind; [reflexivity|].
  rewrite groupby_sum_snoc, group_add_total, IH, map_app, total_app.
  simpl. rewrite total_cons. unfold total at 3; simpl. ring.
Qed.

End Grouping.


(** ** The orders of the keys *)

Lemma str_compare_eq (a b : str) : str_compare a b = Eq <-> a = b.
Proof.
  revert b; induction a as [|x a IH]; intros [|y b]; simpl;
    try (split; congruence).
  destruct (N.compare_spec x y) as [->|H|H].
  - rewrite IH. split; congruence.
  - split; [discriminate | intros [= -> _]; lia].
  - split; [discriminate | intros [= -> _]; lia].
Qed.

Lemma str_compare_opp (a b : str) :
  str_compare b a = CompOpp (str_compare a b).
Proof.
  revert b; induction a as [|x a IH]; intros [|y b]; simpl; try reflexivity.
  rewrite (N.compare_antisym x y).
  destruct (x ?= y)%N; simpl; auto.
Qed.

Lemma str_compare_trans (a b c : str) :
  str_compare a b = Lt -> str_compare b c = Lt -> str_compare a c = Lt.
Proof.
  revert b c; induction a as [|x a IH]; intros [|y b] [|z c]; simpl;
    try congruence.
  destruct (N.compare_spec x y) as [->|Hxy|Hxy]; try discriminate.
  - destruct (N.compare_spec y z) as [->|Hyz|Hyz]; try discriminate; auto.
    apply IH.
  - intros _. destruct (N.compare_spec y z) as [->|Hyz|Hyz];
      try discriminate; intros _.
    + apply N.compare_lt_iff in Hxy. rewrite Hxy. reflexivity.
    + assert (H : (x < z)%N) by lia.
      apply N.compare_lt_iff in H. rewrite H. reflexivity.
Qed.

Lemma period_compare_eq (p q : period) : period_compare p q = Eq <-> p = q.
Proof.
  destruct p as [y m], q as [y' m']. unfold period_compare; simpl.
  destruct (N.compare_spec y y') as [->|H|H].
  - rewrite N.compare_eq_iff. split; congruence.
  - split; [discriminate | intros [= -> _]; lia].
  - split; [discriminate | intros [= -> _]; lia].
Qed.

Lemma period_compare_opp (p q : period) :
  period_compare q p = CompOpp (period_compare p q).
Proof.
  unfold period_compare. rewrite (N.compare_antisym (fst p) (fst q)).
  destruct (fst p ?= fst q)%N; simpl; auto. apply N.compare_antisym.
Qed.

Lemma period_compare_lt (p q : period) :
  period_compare p q = Lt
  <-> (fst p < fst q)%N \/ (fst p = fst q /\ (snd p < snd q)%N).
Proof.
  unfold period_compare.
  destruct (N.compare_spec (fst p) (fst q)) as [E|H|H].
  - rewrite N.compare_lt_iff. lia.
  - split; [lia | reflexivity].
  - split; [discriminate | lia].
Qed.

Lemma period_compare_trans (p q r : period) :
  period_compare p q = Lt -> period_compare q r = Lt ->
  period_compare p r = Lt.
Proof. rewrite !period_compare_lt. lia. Qed.

(** ** Sorting by total *)

Lemma StronglySorted_app {A : Type} (R : A -> A -> Prop) (l1 l2 : list A) :
  StronglySorted R l1 -> StronglySorted R l2 ->
  (forall x y, In x l1 -> In y l2 -> R x y) ->
  StronglySorted R (l1 ++ l2).
Proof.
  induction 1 as [|x l1 Hs IH Hall]; intros H2 Hx; simpl; [assumption|].
  constructor.
  - apply IH; [assumption|]. intros; apply Hx; simpl; auto.
  - apply Forall_app; split; [assumption|].
    apply Forall_forall. intros y Hy. apply Hx; simpl; auto.
Qed.

Lemma StronglySorted_rev {A : Type} (R : A -> A -> Prop) (l : list A) :
  StronglySorted R l -> StronglySorted (fun x y => R y x) (rev l).
Proof.
  induction 1 as [|x l Hs IH Hall]; simpl; [constructor|].
  apply StronglySorted_app; [assumption | repeat constructor |].
  intros a b Ha [<-|[]]. rewrite Forall_forall in Hall.
  apply Hall. now apply in_rev.
Qed.

Section SortByTotal.

Variable K : Type.
Variable cmp : K -> K -> comparison.

Lemma insert_by_total_perm (r : K * Qc) (l : list (K * Qc)) :
  Permutation (insert_by_total r l) (r :: l).
Proof.
  induction l as [|r' l IH]; simpl; [reflexivity|].
  destruct (snd r' ?= snd r); try reflexivity.
  rewrite IH. apply perm_swap.
Qed.

Lemma argsort_total_perm (l : list (K * Qc)) :
  Permutation (argsort_total l) l.
Proof.
  induction l as [|r l IH]; simpl; [reflexivity|].
  rewrite insert_by_total_perm. now constructor.
Qed.

Lemma sort_values_desc_perm (l : list (K * Qc)) :
  Permutation (sort_values_desc l) l.
Proof.
  unfold sort_values_desc.
  rewrite <- Permutation_rev, argsort_total_perm, <- Permutation_rev.
  reflexivity.
Qed.

Lemma insert_by_total_sorted (r : K * Qc) (l : list (K * Qc)) :
  StronglySorted (asc_total_then_key cmp) l ->
  (forall x, In x l -> cmp (fst x) (fst r) = Lt) ->
  StronglySorted (asc_total_then_key cmp) (insert_by_total r l).
Proof.
  induction 1 as [|r' l Hs IH Hall]; intros Hkey; simpl.
  - repeat constructor.
  - assert (Hrest : forall x, In x l -> snd r' <= snd x).
    { rewrite Forall_forall in Hall. intros x Hx.
      destruct (Hall x Hx) as [H|[H _]].
      - now apply Qclt_le_weak.
      - rewrite H. apply Qcle_refl. }
    assert (Hins : snd r <= snd r' ->
                   StronglySorted (asc_total_then_key cmp) (r :: r' :: l)).
    { intros Hle. constructor; [constructor; assumption|].
      apply Forall_forall. intros x Hx.
      assert (Hlex : snd r <= snd x).
      { destruct Hx as [<-|Hx]; [exact Hle|].
        eapply Qcle_trans; [exact Hle | now apply Hrest]. }
      destruct (Qcle_lt_or_eq _ _ Hlex) as [Hlt|Heq].
      - left; exact Hlt.
      - right. split; [exact Heq | now apply Hkey]. }
    destruct (snd r' ?= snd r) eqn:E.
    + apply Hins. apply Qceq_alt in E. rewrite E. apply Qcle_refl.
    + constructor.
      * apply IH. intros x Hx. apply Hkey. now right.
      * apply Forall_forall. intros x Hx.
        apply (Permutation_in _ (insert_by_total_perm r l)) in Hx.
        destruct Hx as [<-|Hx].
        -- left. now apply Qclt_alt.
        -- rewrite Forall_forall in Hall. now apply Hall.
    + apply Hins. apply Qcgt_alt in E. now apply Qclt_le_weak.
Qed.

Lemma argsort_total_sorted (l : list (K * Qc)) :
  StronglySorted (fun r1 r2 => cmp (fst r2) (fst r1) = Lt) l ->
  StronglySorted (asc_total_then_key cmp) (argsort_total l).
Proof.
  induction 1 as [|r l Hs IH Hall]; simpl; [constructor|].
  apply insert_by_total_sorted; [exact IH|].
  intros x Hx. apply (Permutation_in _ (argsort_total_perm l)) in Hx.
  rewrite Forall_forall in Hall. now apply Hall.
Qed.

(** Sorting groups that come in ascending order of their keys: totals
    descend, and rows of equal total stay in ascending order of keys. *)
Lemma sort_values_desc_sorted (l : list (K * Qc)) :
  StronglySorted (key_lt cmp) l ->
  StronglySorted (fun r1 r2 => asc_total_then_key cmp r2 r1)
    (sort_values_desc l).
Proof.
  intros H. unfold sort_values_desc.
  apply StronglySorted_rev, argsort_total_sorted.
  apply (StronglySorted_rev _ _ H).
Qed.

End SortByTotal.

Lemma total_perm (l1 l2 : list Qc) :
  Permutation l1 l2 -> total l1 = total l2.
Proof.
  induction 1 as [|x l l' _ IH|x y l|l l' l'' _ IH1 _ IH2].
  - reflexivity.
  - rewrite !total_cons, IH. reflexivity.
  - rewrite !total_cons. ring.
  - congruence.
Qed.

(** ** The summaries *)


Lemma monthly_summary_unfold (df : list expense) :
  create_monthly_summary df
  = map (fun r => (period_str (fst r), snd r))
      (groupby_sum period_compare
         (map (fun e => (to_period_M (col_date e), col_amount e)) df)).
Proof. destruct df; reflexivity. Qed.

Lemma category_summary_unfold (df : list expense) :
  create_category_summary df
  = sort_values_desc
      (groupby_sum str_compare
         (map (fun e => (col_category e, col_amount e)) df)).
Proof. destruct df; reflexivity. Qed.



Lemma group_add_insert {K : Type} (cmp : K -> K -> comparison)
    (k : K) (a : Qc) (groups : list (K * list Qc)) :
  group_add cmp k a (map (fun g => (fst g, total (snd g))) groups)
  = map (fun g => (fst g, total (snd g))) (group_insert cmp k a groups).
Proof.
  induction groups as [|[k' l] rest IH];
    cbn [group_insert group_add map fst snd].
  - f_equal. f_equal. unfold total. cbn [fold_left]. ring.
  - destruct (cmp k k'); cbn [map fst snd].
    + f_equal. f_equal. rewrite total_app. f_equal.
      unfold total. cbn [fold_left]. ring.
    + f_equal. f_equal. f_equal. unfold total. cbn [fold_left]. ring.
    + now rewrite IH.
Qed.

Lemma groupby_sum_groupby {K : Type} (cmp : K -> K -> comparison)
    (rows : list (K * Qc)) :
  groupby_sum cmp rows
  = map (fun g => (fst g, total (snd g))) (groupby cmp rows).
Proof.
  unfold groupby_sum, groupby.
  assert (H : forall groups,
            fold_left (fun g r => group_add cmp (fst r) (snd r) g) rows
              (map (fun g => (fst g, total (snd g))) groups)
            = map (fun g => (fst g, total (snd g)))
                (fold_left (fun g r => group_insert cmp (fst r) (snd r) g)
                   rows groups)).
  { induction rows as [|r rows IH]; intros groups; cbn [fold_left].
    - reflexivity.
    - now rewrite group_add_insert, IH. }
  apply (H []).
Qed.


(** The groups above are those of the two summary functions. *)
Lemma monthly_summary_regroups (df : list expense) :
  create_monthly_summary df = monthly_totals total (map row_of_expense df).
Proof.
  rewrite monthly_summary_unfold, groupby_sum_groupby.
  unfold monthly_totals, monthly_groups. rewrite !map_map. reflexivity.
Qed.

Lemma category_summary_regroups (df : list expense) :
  Permutation (create_category_summary df)
    (category_totals total (map row_of_expense df)).
Proof.
  rewrite category_summary_unfold, sort_values_desc_perm.
  rewrite groupby_sum_groupby.
  unfold category_totals, category_groups. rewrite !map_map. reflexivity.
Qed.

Section ExactSums.

Variable A : Type.
Variable add : A -> A -> A.
Variable zero : A.
Hypothesis add_assoc : forall x y z, add x (add y z) = add (add x y) z.
Hypothesis add_comm : forall x y, add x y = add y x.
Hypothesis add_zero : forall x, add zero x = x.

Local Abbreviation sum l := (fold_left add l zero).







End ExactSums.



Lemma digits_fuel_indep (f1 f2 : nat) (n : N) :
  (n < 2 ^ N.of_nat f1)%N -> (n < 2 ^ N.of_nat f2)%N ->
  f1 <> O -> f2 <> O -> digits_fuel f1 n = digits_fuel f2 n.
Proof.
  revert f2 n. induction f1 as [|f1 IH]; intros [|f2] n H1 H2 N1 N2;
    try congruence.
  cbn [digits_fuel]. destruct (N.ltb_spec n 10) as [Hlt|Hge]; [reflexivity|].
  rewrite Nat2N.inj_succ, N.pow_succ_r' in H1, H2.
  f_equal. apply IH.
  - apply N.Div0.div_lt_upper_bound. lia.
  - apply N.Div0.div_lt_upper_bound. lia.
  - intros ->. simpl in H1. lia.
  - intros ->. simpl in H2. lia.
Qed.

Lemma str_of_N_four_digits (n : N) :
  (1000 <= n)%N -> (n <= 9999)%N ->
  str_of_N n = [digit_char (n / 1000); digit_char (n / 100 mod 10);
                digit_char (n / 10 mod 10); digit_char (n mod 10)].
Proof.
  intros Hlo Hhi. unfold str_of_N, digits.
  rewrite (digits_fuel_indep _ 14 n).
  - cbn [digits_fuel].
    destruct (N.ltb_spec n 10); [lia|].
    destruct (N.ltb_spec (n / 10) 10); [lia|].
    destruct (N.ltb_spec (n / 10 / 10) 10); [lia|].
    destruct (N.ltb_spec (n / 10 / 10 / 10) 10); [|lia].
    replace (n / 10 / 10 / 10)%N with (n / 1000)%N by lia.
    replace (n / 10 / 10)%N with (n / 100)%N by lia.
    reflexivity.
  - rewrite Nat2N.inj_succ, N2Nat.id, N.pow_succ_r'.
    pose proof (N.size_gt n). lia.
  - simpl. lia.
  - discriminate.
  - discriminate.
Qed.

Lemma pad4_four_digits (n : N) :
  (n <= 9999)%N ->
  pad4 n = [digit_char (n / 1000); digit_char (n / 100 mod 10);
            digit_char (n / 10 mod 10); digit_char (n mod 10)].
Proof.
  intros H. unfold pad4. destruct (N.ltb_spec n 1000); [reflexivity|].
  now apply str_of_N_four_digits.
Qed.

Lemma pad4_value (n : N) : digits_value (pad4 n) = n.
Proof.
  unfold pad4. destruct (N.ltb_spec n 1000).
  - unfold digits_value. cbn [fold_left]. rewrite !digit_val_char. lia.
  - apply digits_spec.
Qed.

Lemma pad2_value (n : N) : digits_value (pad2 n) = n.
Proof.
  unfold digits_value, pad2. cbn [fold_left]. rewrite !digit_val_char. lia.
Qed.

Lemma period_str_inj (p q : period) : period_str p = period_str q -> p = q.
Proof.
  destruct p as [y m], q as [y' m']. unfold period_str, pad2.
  cbn [fst snd]. change (lit "-") with [45%N]. intros H.
  assert (H' : ((pad4 y ++ [45%N]) ++ [digit_char (m / 10)])
               ++ [digit_char (m mod 10)]
               = ((pad4 y' ++ [45%N]) ++ [digit_char (m' / 10)])
                 ++ [digit_char (m' mod 10)]).
  { rewrite <- !app_assoc. exact H. }
  apply app_inj_tail in H'. destruct H' as [H' H3].
  apply app_inj_tail in H'. destruct H' as [H' H2].
  apply app_inj_tail in H'. destruct H' as [H1 _].
  apply (f_equal digits_value) in H1. rewrite !pad4_value in H1.
  unfold digit_char in H2, H3.
  f_equal; lia.
Qed.

Lemma period_compare_test (p : period) (y m : N) :
  match period_compare p (y, m) with Eq => true | _ => false end
  = ((fst p =? y)%N && (snd p =? m)%N)%bool.
Proof.
  unfold period_compare. cbn [fst snd].
  destruct (N.compare_spec (fst p) y) as [Ey|Hy|Hy].
  - rewrite (proj2 (N.eqb_eq _ _) Ey). cbn [andb].
    destruct (N.compare_spec (snd p) m) as [Em|Hm|Hm].
    + now rewrite (proj2 (N.eqb_eq _ _) Em).
    + rewrite (proj2 (N.eqb_neq _ _)); [reflexivity | lia].
    + rewrite (proj2 (N.eqb_neq _ _)); [reflexivity | lia].
  - rewrite (proj2 (N.eqb_neq _ _)); [reflexivity | lia].
  - rewrite (proj2 (N.eqb_neq _ _)); [reflexivity | lia].
Qed.

Lemma amounts_of_month_eq (y m : N) (df : list expense) :
  amounts_of period_compare (y, m)
    (map (fun e => (to_period_M (col_date e), col_amount e)) df)
  = amounts_of_month y m df.
Proof.
  unfold amounts_of, amounts_of_month.
  induction df as [|e df IH]; [reflexivity|].
  cbn [map filter]. rewrite period_compare_test.
  change (fst (fst (to_period_M (col_date e), col_amount e)))
    with (year (col_date e)).
  change (snd (fst (to_period_M (col_date e), col_amount e)))
    with (month (col_date e)).
  destruct ((year (col_date e) =? y)%N && (month (col_date e) =? m)%N)%bool.
  - cbn [map snd]. now rewrite IH.
  - exact IH.
Qed.

Lemma amounts_of_category_eq (c : str) (df : list expense) :
  amounts_of str_compare c (map (fun e => (col_category e, col_amount e)) df)
  = amounts_of_category c df.
Proof.
  unfold amounts_of, amounts_of_category.
  induction df as [|e df IH]; [reflexivity|].
  cbn [map filter fst snd].
  destruct (str_compare (col_category e) c) eqn:E.
  - apply str_compare_eq in E. rewrite E, str_eqb_refl.
    cbn [map snd]. rewrite <- IH. reflexivity.
  - assert (Hne : col_category e <> c).
    { intros Heq. rewrite Heq in E.
      rewrite (proj2 (str_compare_eq c c) eq_refl) in E. discriminate. }
    rewrite (proj2 (str_eqb_neq _ _) Hne). exact IH.
  - assert (Hne : col_category e <> c).
    { intros Heq. rewrite Heq in E.
      rewrite (proj2 (str_compare_eq c c) eq_refl) in E. discriminate. }
    rewrite (proj2 (str_eqb_neq _ _) Hne). exact IH.
Qed.

Lemma sorted_keys_NoDup {K : Type} (cmp : K -> K -> comparison)
    (g : list (K * Qc)) :
  (forall a, cmp a a = Eq) ->
  StronglySorted (key_lt cmp) g -> NoDup (map fst g).
Proof.
  intros Hrefl. induction 1 as [|r g Hs IH Hall]; simpl; constructor.
  - intros Hin. apply in_map_iff in Hin. destruct Hin as (r' & Hf & Hin).
    rewrite Forall_forall in Hall. specialize (Hall r' Hin).
    unfold key_lt in Hall. rewrite Hf, Hrefl in Hall. discriminate.
  - exact IH.
Qed.

Lemma NoDup_map_injective {A B : Type} (f : A -> B) (l : list A) :
  (forall x y, f x = f y -> x = y) -> NoDup l -> NoDup (map f l).
Proof.
  intros Hinj. induction 1 as [|x l Hx _ IH]; simpl; constructor; [|exact IH].
  intros Hin. apply in_map_iff in Hin. destruct Hin as (y & Hf & Hy).
  apply Hinj in Hf. now subst y.
Qed.

Lemma monthly_groups_sorted (df : list expense) :
  StronglySorted (key_lt period_compare)
    (groupby_sum period_compare
       (map (fun e => (to_period_M (col_date e), col_amount e)) df)).
Proof.
  apply groupby_sum_sorted.
  - apply period_compare_opp.
  - apply period_compare_trans.
Qed.

Lemma category_groups_sorted (df : list expense) :
  StronglySorted (key_lt str_compare)
    (groupby_sum str_compare
       (map (fun e => (col_category e, col_amount e)) df)).
Proof.
  apply groupby_sum_sorted.
  - apply str_compare_opp.
  - apply str_compare_trans.
Qed.

Lemma In_monthly_groups (y m : N) (tot : Qc) (df : list expense) :
  In ((y, m), tot)
    (groupby_sum period_compare
       (map (fun e => (to_period_M (col_date e), col_amount e)) df))
  <-> (exists e, In e df /\ year (col_date e) = y /\ month (col_date e) = m)
      /\ tot = total (amounts_of_month y m df).
Proof.
  rewrite In_groupby_sum;
    [| apply period_compare_eq | apply period_compare_opp
     | apply period_compare_trans].
  rewrite amounts_of_month_eq, map_map. cbn [fst].
  rewrite in_map_iff. unfold to_period_M.
  split; intros [[e He] Ht]; (split; [exists e|exact Ht]).
  - destruct He as [[= <- <-] He]. auto.
  - destruct He as (He & <- & <-). auto.
Qed.

(** C7: the monthly summary has one row for every year and month in
    which a row of the frame falls, and no other; the row carries the sum
    of the amounts of that month, whatever the days; its label is the year
    on four digits, a hyphen and the month on two digits; an empty frame
    gives an empty summary; and the two records of January and February
    2024 give 2024-01 with 10 and 2024-02 with 20. *)
Theorem create_monthly_summary_groups_by_month (df : list expense) :
  create_monthly_summary [] = []
  /\ NoDup (map fst (create_monthly_summary df))
  /\ (forall y m tot,
        In (period_str (y, m), tot) (create_monthly_summary df)
        <-> (exists e, In e df /\ year (col_date e) = y
                       /\ month (col_date e) = m)
            /\ tot = total (amounts_of_month y m df))
  /\ (forall key tot,
        In (key, tot) (create_monthly_summary df) ->
        exists y m, key = period_str (y, m))
  /\ (forall y m, (y <= 9999)%N -> (m <= 99)%N ->
        period_str (y, m)
        = [digit_char (y / 1000); digit_char (y / 100 mod 10);
           digit_char (y / 10 mod 10); digit_char (y mod 10); 45%N;
           digit_char (m / 10); digit_char (m mod 10)])
  /\ create_monthly_summary
       [mkexpense (mkdate 2024 1 15) (lit "Food") (Q2Qc 10);
        mkexpense (mkdate 2024 2 1) (lit "Food") (Q2Qc 20)]
     = [(lit "2024-01", Q2Qc 10); (lit "2024-02", Q2Qc 20)].
Proof.
  split; [reflexivity|].
  split.
  { rewrite monthly_summary_unfold, map_map. cbn [fst].
    rewrite <- map_map.
    apply NoDup_map_injective.
    - intros p q. apply period_str_inj.
    - apply (sorted_keys_NoDup period_compare).
      + intros a. now apply period_compare_eq.
      + apply monthly_groups_sorted. }
  split.
  { intros y m tot. rewrite monthly_summary_unfold, <- In_monthly_groups.
    rewrite in_map_iff. split.
    - intros ([p s] & [= Hp ->] & Hin). apply period_str_inj in Hp.
      now subst p.
    - intros Hin. exists ((y, m), tot). auto. }
  split.
  { intros key tot. rewrite monthly_summary_unfold, in_map_iff.
    intros ([[y m] s] & [= <- _] & _). exists y, m. reflexivity. }
  split.
  { intros y m Hy Hm. unfold period_str. cbn [fst snd].
    rewrite pad4_four_digits by assumption. reflexivity. }
  reflexivity.
Qed.

Lemma create_monthly_summary_groups_by_month_witness :
  period_str (2024, 1)%N = lit "2024-01".
Proof.
  destruct (create_monthly_summary_groups_by_month []) as (_ & _ & _ & _ & H & _).
  rewrite (H 2024%N 1%N); [reflexivity | lia | lia].
Defined.

Lemma StronglySorted_impl {A : Type} (R S : A -> A -> Prop) (l : list A) :
  (forall x y, R x y -> S x y) -> StronglySorted R l -> StronglySorted S l.
Proof.
  intros HRS. induction 1 as [|x l _ IH Hall]; constructor; [exact IH|].
  eapply Forall_impl; [|exact Hall]. intros y. apply HRS.
Qed.

Lemma In_category_groups (c : str) (t : Qc) (df : list expense) :
  In (c, t)
    (groupby_sum str_compare
       (map (fun e => (col_category e, col_amount e)) df))
  <-> (exists e, In e df /\ col_category e = c)
      /\ t = total (amounts_of_category c df).
Proof.
  rewrite In_groupby_sum;
    [| apply str_compare_eq | apply str_compare_opp
     | apply str_compare_trans].
  rewrite amounts_of_category_eq, map_map. cbn [fst].
  rewrite in_map_iff.
  split; intros [[e He] Ht]; (split; [exists e; tauto | exact Ht]).
Qed.

(** C4, as it is stated, fails.  Two frames hold the same two records,
    Travel and Food, both of total 10, in the two possible orders.  The
    grouping puts the categories in the order of their names in both
    cases, so that [sort_values] is given the same rows and the summaries
    are the same, however rows of equal total are sorted; ties broken by
    first occurrence would list Travel first for one frame and Food first
    for the other.  So the summary of one of the two frames at least is
    not in the order of first occurrence. *)
Lemma category_summary_tie_not_by_first_occurrence :
  let df1 := [mkexpense (mkdate 2024 1 1) (lit "Travel") (Q2Qc 10);
              mkexpense (mkdate 2024 1 2) (lit "Food") (Q2Qc 10)] in
  let df2 := [mkexpense (mkdate 2024 1 2) (lit "Food") (Q2Qc 10);
              mkexpense (mkdate 2024 1 1) (lit "Travel") (Q2Qc 10)] in
  groupby_sum str_compare (map (fun e => (col_category e, col_amount e)) df1)
  = groupby_sum str_compare (map (fun e => (col_category e, col_amount e)) df2)
  /\ create_category_summary df1 = create_category_summary df2
  /\ category_summary_first_seen df1
     = [(lit "Travel", Q2Qc 10); (lit "Food", Q2Qc 10)]
  /\ category_summary_first_seen df2
     = [(lit "Food", Q2Qc 10); (lit "Travel", Q2Qc 10)]
  /\ ~ (create_category_summary df1 = category_summary_first_seen df1
        /\ create_category_summary df2 = category_summary_first_seen df2).
Proof.
  intros df1 df2.
  split; [reflexivity|]. split; [reflexivity|].
  split; [reflexivity|]. split; [reflexivity|].
  intros [H1 H2].
  assert (H : category_summary_first_seen df1
              = category_summary_first_seen df2).
  { rewrite <- H1, <- H2. reflexivity. }
  apply (f_equal (map fst)) in H. vm_compute in H. discriminate.
Qed.

(** C4, amended: the category summary has one row for every category of
    the frame, with the sum of the amounts of that category, in descending
    order of total: no row comes before a row of a greater total.  The
    order of rows of equal total is not that of the first occurrence of
    their categories; nothing is stated of it. *)
Theorem create_category_summary_descending (df : list expense) :
  create_category_summary [] = []
  /\ NoDup (map fst (create_category_summary df))
  /\ (forall c t,
        In (c, t) (create_category_summary df)
        <-> (exists e, In e df /\ col_category e = c)
            /\ t = total (amounts_of_category c df))
  /\ StronglySorted (fun r1 r2 => snd r2 <= snd r1)
       (create_category_summary df).
Proof.
  split; [reflexivity|]. rewrite category_summary_unfold.
  set (g := groupby_sum str_compare
              (map (fun e => (col_category e, col_amount e)) df)).
  assert (Hg : StronglySorted (key_lt str_compare) g)
    by apply category_groups_sorted.
  pose proof (sort_values_desc_perm _ g) as Hperm.
  split; [|split].
  - apply (Permutation_NoDup (Permutation_map fst (Permutation_sym Hperm))).
    apply (sorted_keys_NoDup str_compare); [|exact Hg].
    intros a. now apply str_compare_eq.
  - intros c t. rewrite <- In_category_groups. fold g. split.
    + apply Permutation_in. exact Hperm.
    + apply Permutation_in. exact (Permutation_sym Hperm).
  - apply (StronglySorted_impl
             (fun r1 r2 => asc_total_then_key str_compare r2 r1)).
    + intros r1 r2 [H|[H1 H2]].
      * now apply Qclt_le_weak.
      * rewrite H1. apply Qcle_refl.
    + now apply sort_values_desc_sorted.
Qed.

Lemma create_category_summary_descending_witness :
  let df := [mkexpense (mkdate 2024 1 1) (lit "Food") (Q2Qc 10);
             mkexpense (mkdate 2024 1 2) (lit "Travel") (Q2Qc 30);
             mkexpense (mkdate 2024 1 3) (lit "Food") (Q2Qc 5)] in
  In (lit "Food", total [Q2Qc 10; Q2Qc 5]) (create_category_summary df).
Proof.
  intros df.
  destruct (create_category_summary_descending df) as (_ & _ & H & _).
  apply H. split; [|reflexivity].
  exists (mkexpense (mkdate 2024 1 1) (lit "Food") (Q2Qc 10)).
  split; [left; reflexivity | reflexivity].
Defined.

(** ** The tokenizer on the text [csv.writer] produces *)

Lemma tok_run_app (t : tok) (s1 s2 : str) :
  tok_run t (s1 ++ s2) = tok_run (tok_run t s1) s2.
Proof. apply fold_left_app. Qed.

Lemma special_false (c : char) :
  special c = false ->
  (c =? comma)%N = false /\ (c =? dquote)%N = false
  /\ (c =? CR)%N = false /\ (c =? LF)%N = false.
Proof.
  unfold special. rewrite !orb_false_iff. tauto.
Qed.

Lemma needs_quote_false (s : str) :
  needs_quote s = false -> Forall (fun c => special c = false) s.
Proof.
  unfold needs_quote. induction s as [|c s IH]; simpl; [constructor|].
  rewrite orb_false_iff. intros [Hc Hs]. constructor; auto.
Qed.

(** Inside an unquoted field, characters that are not special are added
    to the field. *)
Lemma run_in_field (s : str) (p : str) (fs : list str) (rs : list (list str)) :
  Forall (fun c => special c = false) s ->
  tok_run (mktok IN_FIELD p fs rs) s = mktok IN_FIELD (p ++ s) fs rs.
Proof.
  intros H. revert p. induction H as [|c s Hc _ IH]; intros p; simpl.
  - now rewrite app_nil_r.
  - destruct (special_false c Hc) as (H1 & H2 & H3 & H4).
    unfold tok_step, on_in_field; cbn [state].
    rewrite H4, H3, H1. unfold set_state, push_char; cbn.
    rewrite IH, <- app_assoc. reflexivity.
Qed.

(** An unquoted field, read from the start of a field up to a delimiter. *)
Lemma run_plain_field (s : str) (fs : list str) (rs : list (list str)) :
  Forall (fun c => special c = false) s ->
  tok_run (mktok START_FIELD [] fs rs) s
  = match s with
    | [] => mktok START_FIELD [] fs rs
    | _ => mktok IN_FIELD s fs rs
    end.
Proof.
  intros H. destruct H as [|c s Hc Hs]; [reflexivity|].
  destruct (special_false c Hc) as (H1 & H2 & H3 & H4).
  cbn [tok_run fold_left]. unfold tok_step at 2, on_start_field; cbn [state].
  rewrite H4, H3, H2, H1. unfold set_state, push_char; cbn.
  now apply run_in_field.
Qed.

(** Inside a quoted field, the doubled quotes of the writer give back the
    characters of the field. *)
Lemma run_in_quoted (s : str) (p : str) (fs : list str)
    (rs : list (list str)) :
  tok_run (mktok IN_QUOTED_FIELD p fs rs) (double_quotes s)
  = mktok IN_QUOTED_FIELD (p ++ s) fs rs.
Proof.
  revert p. induction s as [|c s IH]; intros p.
  - simpl. now rewrite app_nil_r.
  - change (double_quotes (c :: s))
      with ((if (c =? dquote)%N then [dquote; dquote] else [c])
            ++ double_quotes s).
    rewrite tok_run_app.
    destruct (N.eqb_spec c dquote) as [->|Hne].
    + change (tok_run (mktok IN_QUOTED_FIELD p fs rs) [dquote; dquote])
        with (mktok IN_QUOTED_FIELD (p ++ [dquote]) fs rs).
      rewrite IH, <- app_assoc. reflexivity.
    + assert (Hstep : tok_run (mktok IN_QUOTED_FIELD p fs rs) [c]
                      = mktok IN_QUOTED_FIELD (p ++ [c]) fs rs).
      { cbn [tok_run fold_left]. unfold tok_step; cbn [state].
        now rewrite (proj2 (N.eqb_neq _ _) Hne). }
      rewrite Hstep, IH, <- app_assoc. reflexivity.
Qed.


Lemma run_csv_field (s : str) (fs : list str) (rs : list (list str)) :
  tok_run (mktok START_FIELD [] fs rs) (csv_field s ++ [comma])
  = mktok START_FIELD [] (fs ++ [s]) rs.
Proof.
  unfold csv_field. destruct (needs_quote s) eqn:Hq.
  - rewrite <- !app_assoc.
    change ([dquote] ++ double_quotes s ++ [dquote] ++ [comma])
      with ([dquote] ++ (double_quotes s ++ [dquote; comma])).
    rewrite tok_run_app.
    change (tok_run (mktok START_FIELD [] fs rs) [dquote])
      with (mktok IN_QUOTED_FIELD [] fs rs).
    rewrite tok_run_app, run_in_quoted. reflexivity.
  - rewrite tok_run_app, run_plain_field by now apply needs_quote_false.
    destruct s; reflexivity.
Qed.

Lemma run_last_field (s : str) (fs : list str) (rs : list (list str)) :
  Forall (fun c => special c = false) s ->
  tok_run (mktok START_FIELD [] fs rs) (s ++ [CR; LF])
  = mktok START_RECORD [] [] (rs ++ [fs ++ [s]]).
Proof.
  intros H. rewrite tok_run_app, run_plain_field by assumption.
  destruct s; reflexivity.
Qed.

Lemma is_plain_spec (c : char) :
  is_plain c = true -> special c = false /\ is_blank c = false.
Proof.
  unfold is_plain, is_digit, special, is_blank, comma, dquote, CR, LF.
  rewrite !orb_true_iff, andb_true_iff, !N.leb_le, !N.eqb_eq.
  intros H. rewrite !orb_false_iff, !N.eqb_neq. lia.
Qed.

Lemma plain_not_special (s : str) :
  forallb is_plain s = true -> Forall (fun c => special c = false) s.
Proof.
  rewrite forallb_forall, Forall_forall. intros H c Hc.
  now apply is_plain_spec, H.
Qed.

Lemma run_first_field (s : str) (rs : list (list str)) :
  s <> [] -> forallb is_plain s = true ->
  tok_run (mktok START_RECORD [] [] rs) (s ++ [comma])
  = mktok START_FIELD [] [s] rs.
Proof.
  intros Hne Hs. destruct s as [|c s]; [congruence|].
  cbn [forallb] in Hs. apply andb_true_iff in Hs. destruct Hs as [Hc Hs].
  destruct (is_plain_spec c Hc) as [Hsp Hbl].
  destruct (special_false c Hsp) as (H1 & H2 & H3 & H4).
  change ((c :: s) ++ [comma]) with ([c] ++ (s ++ [comma])).
  rewrite tok_run_app.
  assert (Hstep : tok_run (mktok START_RECORD [] [] rs) [c]
                  = mktok IN_FIELD [c] [] rs).
  { cbn [tok_run fold_left]. unfold tok_step, on_start_record; cbn [state].
    rewrite H4, H3, Hbl. unfold on_start_field. now rewrite H4, H3, H2, H1. }
  rewrite Hstep, tok_run_app, run_in_field by now apply plain_not_special.
  reflexivity.
Qed.

(** A row of a date, a category and an amount, read from the start of a
    record: one line of three fields, the category as it was before
    quoting. *)
Lemma run_row (d c a : str) (rs : list (list str)) :
  d <> [] -> forallb is_plain d = true -> forallb is_plain a = true ->
  tok_run (mktok START_RECORD [] [] rs) (writerow [d; csv_field c; a])
  = mktok START_RECORD [] [] (rs ++ [[d; c; a]]).
Proof.
  intros Hd Hpd Hpa.
  replace (writerow [d; csv_field c; a])
    with ((d ++ [comma]) ++ (csv_field c ++ [comma]) ++ (a ++ [CR; LF])).
  - rewrite tok_run_app, run_first_field by assumption.
    rewrite tok_run_app, run_csv_field.
    now rewrite run_last_field by now apply plain_not_special.
  - unfold writerow. cbn [flat_map]. rewrite app_nil_r, <- !app_assoc.
    reflexivity.
Qed.

(** ** The texts of dates and amounts *)

Lemma is_plain_digit (d : N) : (d < 10)%N -> is_plain (digit_char d) = true.
Proof. intros H. unfold is_plain. now rewrite is_digit_char. Qed.

Lemma plain_str_of_N (n : N) : forallb is_plain (str_of_N n) = true.
Proof.
  unfold str_of_N. destruct (digits_spec n) as (_ & H & _).
  induction H as [|d ds Hd _ IH]; simpl; [reflexivity|].
  now rewrite is_plain_digit.
Qed.

Lemma plain_pad4 (n : N) : forallb is_plain (pad4 n) = true.
Proof.
  unfold pad4. destruct (N.ltb_spec n 1000); [|apply plain_str_of_N].
  cbn [forallb]. rewrite !is_plain_digit by lia. reflexivity.
Qed.

Lemma plain_pad2 (n : N) : (n < 100)%N -> forallb is_plain (pad2 n) = true.
Proof.
  intros H. unfold pad2. cbn [forallb].
  rewrite !is_plain_digit by lia. reflexivity.
Qed.

Lemma days_in_month_le (y m : N) : (days_in_month y m <= 31)%N.
Proof.
  unfold days_in_month.
  destruct (m =? 2)%N; [destruct (is_leap y); lia|].
  destruct ((m =? 4) || (m =? 6) || (m =? 9) || (m =? 11))%N%bool; lia.
Qed.

Lemma valid_date_bounds (d : date) :
  valid_date d = true ->
  (1 <= year d <= 9999 /\ 1 <= month d <= 12 /\ 1 <= day d <= 31)%N.
Proof.
  unfold valid_date. rewrite !andb_true_iff, !N.leb_le.
  pose proof (days_in_month_le (year d) (month d)). lia.
Qed.

Lemma plain_strftime (d : date) :
  valid_date d = true ->
  forallb is_plain (strftime_ymd d) = true /\ strftime_ymd d <> [].
Proof.
  intros Hv. apply valid_date_bounds in Hv. unfold strftime_ymd. split.
  - rewrite !forallb_app, plain_pad4, !plain_pad2 by lia. reflexivity.
  - intros E. apply (f_equal (@length _)) in E.
    rewrite !length_app in E. simpl in E. lia.
Qed.

Lemma plain_repr_float (c : Z) : forallb is_plain (repr_float c) = true.
Proof.
  unfold repr_float. rewrite !forallb_app, plain_str_of_N.
  set (f := (Z.to_N (Z.abs c) mod 100)%N).
  assert (Hf : (f < 100)%N) by (subst f; apply N.mod_lt; lia).
  destruct (c <? 0)%Z; destruct (f mod 10 =? 0)%N; cbn [forallb lit];
    rewrite ?is_plain_digit by lia; reflexivity.
Qed.

Lemma to_datetime_strftime (d : date) :
  valid_date d = true ->
  date_leb timestamp_min d = true -> date_leb d timestamp_max = true ->
  to_datetime (strftime_ymd d) = Some d.
Proof.
  intros Hv Hmin Hmax.
  pose proof (valid_date_bounds d Hv) as (Hy & Hm & Hd).
  destruct d as [y m dd]. cbn [year month day] in *.
  unfold strftime_ymd. cbn [year month day].
  rewrite pad4_four_digits by lia. unfold pad2.
  change (lit "-") with [45%N]. cbn [app].
  unfold to_datetime.
  assert (Hdig : all_digits
            [digit_char (y / 1000); digit_char (y / 100 mod 10);
             digit_char (y / 10 mod 10); digit_char (y mod 10);
             digit_char (m / 10); digit_char (m mod 10);
             digit_char (dd / 10); digit_char (dd mod 10)] = true).
  { cbn [all_digits forallb]. rewrite !is_digit_char by lia. reflexivity. }
  rewrite Hdig. cbn [andb N.eqb Pos.eqb].
  assert (Hyv : digits_value
            [digit_char (y / 1000); digit_char (y / 100 mod 10);
             digit_char (y / 10 mod 10); digit_char (y mod 10)] = y).
  { rewrite <- pad4_four_digits by lia. apply pad4_value. }
  rewrite Hyv.
  change [digit_char (m / 10); digit_char (m mod 10)] with (pad2 m).
  change [digit_char (dd / 10); digit_char (dd mod 10)] with (pad2 dd).
  rewrite !pad2_value, Hv, Hmin, Hmax. reflexivity.
Qed.

Lemma span_all (p : char -> bool) (s : str) :
  forallb p s = true -> span p s = (s, []).
Proof.
  induction s as [|c s IH]; simpl; [reflexivity|].
  intros H. apply andb_true_iff in H. destruct H as [Hc Hs].
  now rewrite Hc, IH.
Qed.

Lemma span_app_stop (p : char -> bool) (s : str) (x : char) (r : str) :
  forallb p s = true -> p x = false -> span p (s ++ x :: r) = (s, x :: r).
Proof.
  intros Hs Hx. induction s as [|c s IH]; simpl.
  - now rewrite Hx.
  - simpl in Hs. apply andb_true_iff in Hs. destruct Hs as [Hc Hs].
    now rewrite Hc, IH.
Qed.

Lemma is_digit_bounds (c : char) :
  is_digit c = true <-> (48 <= c <= 57)%N.
Proof. unfold is_digit. rewrite andb_true_iff, !N.leb_le. tauto. Qed.

(** What [to_numeric] reads in digits, a point and digits. *)
Lemma to_numeric_decimal (ip fp : str) :
  ip <> [] -> all_digits ip = true -> all_digits fp = true ->
  to_numeric (ip ++ 46%N :: fp)
  = Some (scale10 (Z.of_N (digits_value (ip ++ fp)))
            (0 - Z.of_nat (length fp))).
Proof.
  intros Hne Hip Hfp. unfold to_numeric.
  destruct ip as [|c ip]; [congruence|].
  cbn [all_digits forallb] in Hip. apply andb_true_iff in Hip.
  destruct Hip as [Hc Hip]. pose proof (proj1 (is_digit_bounds c) Hc) as Hb.
  assert (Hsp : is_c_space c = false).
  { unfold is_c_space. rewrite orb_false_iff, andb_false_iff.
    rewrite N.eqb_neq, !N.leb_gt. lia. }
  cbn [app span]. rewrite Hsp. cbn [snd read_sign].
  rewrite (proj2 (N.eqb_neq c 45)), (proj2 (N.eqb_neq c 43)) by lia.
  assert (Hspan : span is_digit ((c :: ip) ++ 46%N :: fp)
                  = (c :: ip, 46%N :: fp)).
  { apply span_app_stop; [cbn [forallb]; now rewrite Hc | reflexivity]. }
  cbn [app] in Hspan. rewrite Hspan.
  cbn [read_fraction N.eqb Pos.eqb]. rewrite (span_all is_digit fp Hfp).
  reflexivity.
Qed.

Lemma Q2Qc_eq (p q : Q) : (p == q)%Q -> Q2Qc p = Q2Qc q.
Proof. intros H. apply Qc_is_canon. simpl. now rewrite !Qred_correct. Qed.

(** The amount written for a positive number of hundredths reads back as
    that amount. *)
Lemma to_numeric_repr_float (c : Z) :
  (0 < c)%Z -> to_numeric (repr_float c) = Some (amount_of_cents c).
Proof.
  intros Hc. unfold repr_float.
  rewrite (proj2 (Z.ltb_ge c 0)) by lia. cbn [app].
  change (lit ".") with [46%N]. cbn [app].
  rewrite Z.abs_eq by lia.
  set (a := Z.to_N c).
  assert (Ha : c = Z.of_N a) by (subst a; lia).
  assert (Hf : (a mod 100 < 100)%N) by (apply N.mod_lt; lia).
  destruct (N.eqb_spec ((a mod 100) mod 10) 0) as [H0|H0].
  - rewrite to_numeric_decimal;
      [| apply str_of_N_nonempty | apply all_digits_str_of_N
       | cbn [all_digits forallb]; rewrite is_digit_char by lia; reflexivity].
    f_equal. rewrite digits_value_app.
    destruct (digits_spec (a / 100)) as (Hv & _ & _). rewrite Hv.
    unfold digits_value at 1. cbn [fold_left length].
    rewrite digit_val_char. unfold scale10, amount_of_cents.
    cbn [Z.leb Z.compare Z.sub Z.add Z.opp Z.of_nat Pos.of_succ_nat
         Z.pos_sub Pos.pred_double].
    apply Q2Qc_eq. unfold Qeq. cbn [Qnum Qden]. rewrite Ha.
    change (Z.pos (Z.to_pos (10 ^ 1))) with 10%Z.
    change (N.of_nat 1) with 1%N. lia.
  - rewrite to_numeric_decimal;
      [| apply str_of_N_nonempty | apply all_digits_str_of_N
       | cbn [all_digits forallb]; rewrite !is_digit_char by lia;
         reflexivity].
    f_equal. rewrite digits_value_app.
    destruct (digits_spec (a / 100)) as (Hv & _ & _). rewrite Hv.
    change [digit_char (a mod 100 / 10); digit_char ((a mod 100) mod 10)]
      with (pad2 (a mod 100)).
    rewrite pad2_value. unfold scale10, amount_of_cents.
    change (0 - Z.of_nat (length (pad2 (a mod 100))))%Z with (-2)%Z.
    cbn [Z.leb Z.compare Z.opp].
    apply Q2Qc_eq. unfold Qeq. cbn [Qnum Qden]. rewrite Ha.
    change (Z.pos (Z.to_pos (10 ^ 2))) with 100%Z.
    change (N.of_nat (length (pad2 (a mod 100)))) with 2%N. lia.
Qed.

(** ** [load_expenses], line by line *)

Lemma complete_store_inv (old : str) :
  complete_store (Some old) = true ->
  exists lines,
    tok_run tok_init old = mktok START_RECORD [] [] lines
    /\ Forall (fun l => length l <= 3)%nat lines.
Proof.
  unfold complete_store.
  destruct (tok_run tok_init old) as [st p fs rs]. cbn [state pending fields rows].
  destruct st; try discriminate.
  rewrite !andb_true_iff. intros [[Hp Hf] Hr].
  apply is_empty_true in Hp. apply Nat.eqb_eq in Hf.
  destruct fs; [|discriminate]. subst p.
  exists rs. split; [reflexivity|].
  apply Forall_forall. intros l Hl.
  rewrite forallb_forall in Hr. now apply Nat.leb_le, Hr.
Qed.

Lemma read_csv_narrow (text : str) (lines : list (list str)) :
  tokenize text = Some lines ->
  Forall (fun l => length l <= 3)%nat lines ->
  read_csv text = Some (map (named_cells 3) lines).
Proof.
  intros Htok Hall. unfold read_csv. rewrite Htok.
  assert (Hw : table_width lines = 3%nat).
  { destruct Hall as [|l ls Hl _]; [reflexivity|]. simpl. lia. }
  rewrite Hw.
  assert (Hnone : existsb (fun l => Nat.ltb 3 (length l)) (tl lines) = false).
  { assert (Htl : Forall (fun l => length l <= 3)%nat (tl lines))
      by (destruct Hall; [constructor | assumption]).
    induction Htl as [|x xs Hx _ IH]; [reflexivity|].
    cbn [existsb]. rewrite IH, orb_false_r. now apply Nat.ltb_ge. }
  now rewrite Hnone.
Qed.

Lemma is_na_empty : is_na [] = true.
Proof. reflexivity. Qed.

Lemma frame_of_line (l : list str) :
  (length l <= 3)%nat ->
  map expense_of_row
    (dropna (map convert_row (dropna [named_cells 3 l])))
  = keep_some [decode_line l].
Proof.
  intros Hl.
  assert (Hpad : exists a b c, pad_to 3 l = [a; b; c]).
  { destruct l as [|a [|b [|c [|x l]]]]; simpl in Hl; try lia;
      repeat eexists; reflexivity. }
  destruct Hpad as (a & b & c & Hpad).
  unfold named_cells, decode_line. cbn [Nat.sub skipn]. rewrite Hpad.
  unfold cell.
  destruct (is_na a), (is_na b), (is_na c); cbn [dropna map orb keep_some];
    try reflexivity.
  unfold convert_row.
  destruct (to_datetime a), (to_numeric c); reflexivity.
Qed.

Lemma dropna_app {A B C : Type}
    (l1 l2 : list (option A * option B * option C)) :
  dropna (l1 ++ l2) = dropna l1 ++ dropna l2.
Proof.
  induction l1 as [|[[[a|] [b|]] [c|]] l1 IH]; simpl; rewrite ?IH; reflexivity.
Qed.

Lemma keep_some_app {A : Type} (l1 l2 : list (option A)) :
  keep_some (l1 ++ l2) = keep_some l1 ++ keep_some l2.
Proof.
  induction l1 as [|[a|] l1 IH]; simpl; rewrite ?IH; reflexivity.
Qed.

Lemma frame_of_lines (lines : list (list str)) :
  Forall (fun l => length l <= 3)%nat lines ->
  map expense_of_row
    (dropna (map convert_row (dropna (map (named_cells 3) lines))))
  = keep_some (map decode_line lines).
Proof.
  induction 1 as [|l ls Hl _ IH]; [reflexivity|].
  change (map (named_cells 3) (l :: ls))
    with ([named_cells 3 l] ++ map (named_cells 3) ls).
  change (map decode_line (l :: ls))
    with ([decode_line l] ++ map decode_line ls).
  rewrite dropna_app, map_app, dropna_app, map_app, keep_some_app.
  now rewrite IH, frame_of_line.
Qed.

(** When the file tokenizes and none of its lines has more than three
    fields, the frame is made of the lines that read well, each taken by
    itself, and no error is reported. *)
Lemma load_expenses_narrow (w : world) (text : str)
    (lines : list (list str)) :
  file w = Some text ->
  tokenize text = Some lines ->
  Forall (fun l => length l <= 3)%nat lines ->
  load_expenses w = (keep_some (map decode_line lines), w).
Proof.
  intros Hf Htok Hall. unfold load_expenses.
  rewrite Hf, (read_csv_narrow text lines Htok Hall).
  rewrite <- frame_of_lines by assumption.
  destruct (dropna (map (named_cells 3) lines)); reflexivity.
Qed.


Lemma is_na_In (s : str) : is_na s = true -> In s na_values.
Proof.
  unfold is_na. rewrite existsb_exists. intros (x & Hx & Heq).
  apply str_eqb_eq in Heq. now subst x.
Qed.

(** No missing-value marker is made of digits, hyphens and points only. *)
Lemma is_na_plain (s : str) :
  s <> [] -> forallb is_plain s = true -> is_na s = false.
Proof.
  intros Hne Hp. destruct (is_na s) eqn:E; [|reflexivity].
  apply is_na_In in E. unfold na_values in E. cbn [map In] in E.
  repeat (destruct E as [E|E];
          [subst s;
           first [exfalso; apply Hne; reflexivity
                 | vm_compute in Hp; discriminate]|]).
  destruct E.
Qed.

(** No missing-value marker holds a comma. *)
Lemma is_na_comma (s : str) : In comma s -> is_na s = false.
Proof.
  intros Hc. destruct (is_na s) eqn:E; [|reflexivity].
  apply is_na_In in E. unfold na_values in E. cbn [map In] in E.
  repeat (destruct E as [E|E];
          [subst s; vm_compute in Hc; intuition discriminate|]).
  destruct E.
Qed.

(** The line [add_expense] writes, read by itself, is the record. *)
Lemma decode_written_line (d : date) (c : str) (a : Z) :
  valid_date d = true ->
  date_leb timestamp_min d = true -> date_leb d timestamp_max = true ->
  is_na c = false -> (0 < a)%Z ->
  decode_line [strftime_ymd d; c; repr_float a]
  = Some (mkexpense d c (amount_of_cents a)).
Proof.
  intros Hv Hmin Hmax Hna Ha. unfold decode_line, pad_to. cbn [length Nat.sub repeat app].
  destruct (plain_strftime d Hv) as [Hpd Hned].
  rewrite (is_na_plain _ Hned Hpd), Hna.
  rewrite (is_na_plain (repr_float a)).
  - cbn [orb]. rewrite to_datetime_strftime, to_numeric_repr_float by assumption.
    reflexivity.
  - unfold repr_float. intros E. apply (f_equal (@length _)) in E.
    rewrite !length_app in E. destruct ((Z.to_N (Z.abs a) mod 100) mod 10 =? 0)%N;
      simpl in E; lia.
  - apply plain_repr_float.
Qed.

Lemma tokenize_written_line (d : date) (c : str) (a : Z)
    (lines : list (list str)) :
  valid_date d = true ->
  tok_run (mktok START_RECORD [] [] lines)
    (writerow [strftime_ymd d; csv_field c; repr_float a])
  = mktok START_RECORD [] [] (lines ++ [[strftime_ymd d; c; repr_float a]]).
Proof.
  intros Hv. destruct (plain_strftime d Hv) as [Hpd Hned].
  apply run_row; [assumption | assumption | apply plain_repr_float].
Qed.

(** After a line is appended to a complete file (or written to a new
    one), the frame is the frame of before and the record of the line. *)
Lemma load_after_append (f : option str) (d : date) (c : str) (a : Z)
    (u : bool) (m : list message) :
  complete_store f = true ->
  valid_date d = true ->
  date_leb timestamp_min d = true -> date_leb d timestamp_max = true ->
  is_na c = false -> (0 < a)%Z ->
  fst (load_expenses
         (mkworld (append_file f (writerow [strftime_ymd d; csv_field c;
                                            repr_float a])) u m))
  = fst (load_expenses (mkworld f u m))
    ++ [mkexpense d c (amount_of_cents a)].
Proof.
  intros Hst Hv Hmin Hmax Hna Ha.
  set (row := writerow [strftime_ymd d; csv_field c; repr_float a]).
  assert (Hone : forall lines,
            Forall (fun l => length l <= 3)%nat
              (lines ++ [[strftime_ymd d; c; repr_float a]])
            -> fst (keep_some
                 (map decode_line
                    (lines ++ [[strftime_ymd d; c; repr_float a]])), tt)
               = keep_some (map decode_line lines)
                 ++ [mkexpense d c (amount_of_cents a)]).
  { intros lines _. cbn [fst]. rewrite map_app, keep_some_app.
    cbn [map]. now rewrite decode_written_line. }
  destruct f as [old|]; cbn [append_file].
  - destruct (complete_store_inv old Hst) as (lines & Hrun & Hall).
    assert (Hall' : Forall (fun l => length l <= 3)%nat
                      (lines ++ [[strftime_ymd d; c; repr_float a]])).
    { apply Forall_app; split; [assumption|]. repeat constructor. }
    rewrite (load_expenses_narrow _ (old ++ row)
               (lines ++ [[strftime_ymd d; c; repr_float a]]));
      [| reflexivity | | assumption].
    + rewrite (load_expenses_narrow (mkworld (Some old) u m) old lines);
        [| reflexivity | | assumption].
      * apply (Hone lines Hall').
      * unfold tokenize. now rewrite Hrun.
    + unfold tokenize. rewrite tok_run_app, Hrun. subst row.
      now rewrite tokenize_written_line.
  - rewrite (load_expenses_narrow _ row [[strftime_ymd d; c; repr_float a]]);
      [| reflexivity | | repeat constructor].
    + apply (Hone [] ltac:(repeat constructor)).
    + unfold tokenize, tok_init. subst row.
      now rewrite tokenize_written_line.
Qed.

(** ** Tolerance of [load_expenses] *)











Lemma plain_line_length (l : list str) :
  plain_line l = true -> (length l <= 3)%nat.
Proof.
  destruct l as [|a [|b [|c [|x l]]]]; simpl; try lia.
  unfold plain_line, pad_to. simpl. discriminate.
Qed.

Lemma plain_lines_narrow (lines : list (list str)) :
  forallb plain_line lines = true ->
  Forall (fun l => length l <= 3)%nat lines.
Proof.
  rewrite forallb_forall, Forall_forall. intros H l Hl.
  now apply plain_line_length, H.
Qed.





(** ** What [load_expenses] checks *)

Lemma to_datetime_valid (s : str) (d : date) :
  to_datetime s = Some d -> valid_date d = true.
Proof.
  unfold to_datetime.
  do 11 (destruct s as [|? s]; try discriminate).
  match goal with |- (if ?b then _ else _) = _ -> _ => destruct b end;
    [|discriminate].
  match goal with |- (if ?b then _ else _) = _ -> _ => destruct b eqn:E end;
    [|discriminate].
  intros [= <-]. rewrite !andb_true_iff in E. tauto.
Qed.

(** C3, as it is stated, fails: a line with a negative amount and a line
    whose category is blank are both loaded. *)
Lemma load_expenses_keeps_invalid_records :
  let text := lit "2024-01-15,Food,-5.0" ++ [LF]
              ++ lit "2024-01-16,   ,5.0" ++ [LF] in
  let w := mkworld (Some text) false [] in
  length (fst (load_expenses w)) = 2%nat
  /\ Exists (fun e => col_amount e < 0) (fst (load_expenses w))
  /\ Exists (fun e => is_empty (strip (col_category e)) = true)
       (fst (load_expenses w)).
Proof.
  intros text w. split; [reflexivity|]. split.
  - vm_compute. apply Exists_cons_hd. reflexivity.
  - vm_compute. apply Exists_cons_tl, Exists_cons_hd. reflexivity.
Qed.

Lemma In_keep_some {A : Type} (x : A) (l : list (option A)) :
  In x (keep_some l) <-> In (Some x) l.
Proof.
  induction l as [|[a|] l IH]; simpl; [tauto| |].
  - rewrite IH. split; intros [H|H]; auto; left; congruence.
  - rewrite IH. split; [auto | intros [H|H]; [discriminate | exact H]].
Qed.

(** C3, amended.  For a file that tokenizes and whose lines are of the
    kind described by [plain_line], every record [load_expenses] returns
    comes from one line of the file, whole: its date was read from the
    date field of that line and is a calendar date, its category is the
    category field, its amount was read from the amount field, and none
    of the three fields is missing or a missing-value marker; a line
    failing any of this gives no record at all.  That the amount is
    positive and the category not blank is checked by [add_expense] only,
    not on reload. *)
Theorem load_expenses_rows_read_well (w : world) (text : str)
    (lines : list (list str)) (e : expense) :
  file w = Some text ->
  tokenize text = Some lines ->
  forallb plain_line lines = true ->
  In e (fst (load_expenses w)) ->
  valid_date (col_date e) = true
  /\ is_na (col_category e) = false
  /\ exists l d a,
       In l lines /\ pad_to 3 l = [d; col_category e; a]
       /\ is_na d = false /\ is_na a = false
       /\ to_datetime d = Some (col_date e)
       /\ to_numeric a = Some (col_amount e).
Proof.
  intros Hf Htok Hplain.
  rewrite (load_expenses_narrow w text lines Hf Htok)
    by now apply plain_lines_narrow.
  cbn [fst]. rewrite In_keep_some, in_map_iff.
  intros (l & Hdec & Hl). unfold decode_line in Hdec.
  destruct (pad_to 3 l) as [|d [|c [|a [|x r]]]] eqn:Hpad; try discriminate.
  destruct (is_na d) eqn:Hd; [discriminate|].
  destruct (is_na c) eqn:Hc; [discriminate|].
  destruct (is_na a) eqn:Ha; [discriminate|].
  cbn [orb] in Hdec.
  destruct (to_datetime d) as [d'|] eqn:Hdate; [|discriminate].
  destruct (to_numeric a) as [a'|] eqn:Hnum; [|discriminate].
  injection Hdec as <-. cbn [col_date col_category col_amount].
  split; [now apply (to_datetime_valid d)|]. split; [exact Hc|].
  exists l, d, a. repeat split; assumption.
Qed.

Lemma load_expenses_rows_read_well_witness :
  let text := lit "2024-01-15,Food,-5.0" ++ [LF] in
  let w := mkworld (Some text) false [] in
  valid_date (mkdate 2024 1 15) = true /\ is_na (lit "Food") = false.
Proof.
  intros text w.
  destruct (load_expenses_rows_read_well w text
              [[lit "2024-01-15"; lit "Food"; lit "-5.0"]]
              (mkexpense (mkdate 2024 1 15) (lit "Food")
                 (scale10 (-50) (-1)))
              eq_refl eq_refl eq_refl) as (H1 & H2 & _).
  - vm_compute. left. reflexivity.
  - split; [exact H1 | exact H2].
Defined.

(** ** What [add_expense] writes *)

Lemma add_expense_accepts (d : date) (c : str) (a : Z) (w : world) :
  is_empty (strip c) = false -> (0 < a)%Z ->
  add_expense d c a w
  = (true,
     mkworld
       (append_file (file w)
          (writerow [strftime_ymd d; csv_field (strip c); repr_float a]))
       true (shown w ++ [st_success msg_added])).
Proof.
  intros Hc Ha. unfold add_expense.
  rewrite Hc, (proj2 (Z.leb_gt a 0)) by lia. reflexivity.
Qed.

Lemma tokenize_one_line (d : date) (c : str) (a : Z) :
  valid_date d = true ->
  tokenize (writerow [strftime_ymd d; csv_field c; repr_float a])
  = Some [[strftime_ymd d; c; repr_float a]].
Proof.
  intros Hv. unfold tokenize, tok_init.
  now rewrite tokenize_written_line.
Qed.

Lemma fraction_digits_after_digits (ds fs : str) :
  all_digits ds = true -> fraction_digits (ds ++ 46%N :: fs) = length fs.
Proof.
  induction ds as [|c ds IH]; intros H.
  - reflexivity.
  - cbn [all_digits forallb] in H. apply andb_true_iff in H.
    destruct H as [Hc Hds]. apply is_digit_bounds in Hc.
    cbn [app fraction_digits].
    rewrite (proj2 (N.eqb_neq c 46)) by lia. now apply IH.
Qed.

Lemma fraction_digits_repr_float (a : Z) :
  (0 < a)%Z -> (1 <= fraction_digits (repr_float a) <= 2)%nat.
Proof.
  intros Ha. unfold repr_float.
  rewrite (proj2 (Z.ltb_ge a 0)) by lia. cbn [app].
  change (lit ".") with [46%N]. cbn [app].
  rewrite fraction_digits_after_digits by apply all_digits_str_of_N.
  destruct ((Z.to_N (Z.abs a) mod 100) mod 10 =? 0)%N; simpl; lia.
Qed.

(** C5, as it is stated, fails: the amount 10.00 is written with one
    fraction digit. *)
Lemma add_expense_writes_one_fraction_digit :
  let r := add_expense (mkdate 2024 1 15) (lit "Food") 1000
             (mkworld None false []) in
  fst r = true
  /\ file (snd r) = Some (lit "2024-01-15,Food,10.0" ++ [CR; LF])
  /\ repr_float 1000 = lit "10.0"
  /\ ~ (2 <= fraction_digits (repr_float 1000))%nat.
Proof.
  intros r. repeat split. vm_compute. lia.
Qed.

(** C5, amended: for a calendar date from the year 1000 on, a category
    that is not blank and a positive amount in hundredths below 10^13
    (fifteen significant digits), [add_expense] appends to the file
    exactly one line, the date as YYYY-MM-DD, a comma, the trimmed category
    (as it is when it holds no comma, quote or line break), a comma, the
    amount and a line end; the line reads as one row of these three
    fields; the amount is written as Python prints the float, with one
    fraction digit at least, not two, and two at most, and denotes the
    amount. *)
Theorem add_expense_appends_one_line (d : date) (c : str) (a : Z)
    (w : world) :
  valid_date d = true -> (1000 <= year d)%N ->
  is_empty (strip c) = false -> (0 < a < amount_bound)%Z ->
  let line := writerow [strftime_ymd d; csv_field (strip c); repr_float a] in
  fst (add_expense d c a w) = true
  /\ file (snd (add_expense d c a w)) = append_file (file w) line
  /\ line = strftime_ymd d ++ [comma] ++ csv_field (strip c) ++ [comma]
            ++ repr_float a ++ [CR; LF]
  /\ tokenize line = Some [[strftime_ymd d; strip c; repr_float a]]
  /\ strftime_ymd d
     = [digit_char (year d / 1000); digit_char (year d / 100 mod 10);
        digit_char (year d / 10 mod 10); digit_char (year d mod 10); 45%N;
        digit_char (month d / 10); digit_char (month d mod 10); 45%N;
        digit_char (day d / 10); digit_char (day d mod 10)]
  /\ (needs_quote (strip c) = false -> csv_field (strip c) = strip c)
  /\ (1 <= fraction_digits (repr_float a) <= 2)%nat
  /\ to_numeric (repr_float a) = Some (amount_of_cents a).
Proof.
  intros Hv _ Hc [Ha _] line. rewrite add_expense_accepts by assumption.
  cbn [fst snd file].
  split; [reflexivity|]. split; [reflexivity|].
  split.
  { subst line. unfold writerow. cbn [flat_map].
    rewrite app_nil_r, <- !app_assoc. reflexivity. }
  split; [now apply tokenize_one_line|].
  split.
  { pose proof (valid_date_bounds d Hv) as (Hy & _).
    unfold strftime_ymd. rewrite pad4_four_digits by lia. reflexivity. }
  split.
  { intros Hq. unfold csv_field. now rewrite Hq. }
  split; [now apply fraction_digits_repr_float|].
  now apply to_numeric_repr_float.
Qed.

Lemma add_expense_appends_one_line_witness :
  file (snd (add_expense (mkdate 2024 1 15) (lit " Food ") 1050
               (mkworld (Some (lit "2024-01-14,Travel,30.0" ++ [CR; LF]))
                  false [])))
  = Some (lit "2024-01-14,Travel,30.0" ++ [CR; LF]
          ++ lit "2024-01-15,Food,10.5" ++ [CR; LF]).
Proof.
  destruct (add_expense_appends_one_line (mkdate 2024 1 15) (lit " Food ")
              1050
              (mkworld (Some (lit "2024-01-14,Travel,30.0" ++ [CR; LF]))
                 false []))
    as (_ & H & _).
  - reflexivity.
  - vm_compute. discriminate.
  - reflexivity.
  - vm_compute. split; reflexivity.
  - rewrite H. reflexivity.
Defined.

(** ** [add_expense] followed by [load_expenses] *)

Lemma load_expenses_file (w1 w2 : world) :
  file w1 = file w2 -> fst (load_expenses w1) = fst (load_expenses w2).
Proof.
  intros H. unfold load_expenses. rewrite H.
  destruct (file w2) as [text|]; [|reflexivity].
  destruct (read_csv text) as [df|]; [|reflexivity].
  destruct (negb _); reflexivity.
Qed.

(** What [add_expense] leaves behind is a complete store again. *)
Lemma add_expense_keeps_complete (d : date) (c : str) (a : Z) (w : world) :
  valid_date d = true ->
  complete_store (file w) = true ->
  complete_store (file (snd (add_expense d c a w))) = true.
Proof.
  intros Hv Hst. unfold add_expense.
  destruct (is_empty (strip c)); [exact Hst|].
  destruct (a <=? 0)%Z; [exact Hst|].
  cbn [snd file].
  assert (Hdone : forall lines,
            Forall (fun l => length l <= 3)%nat lines ->
            forallb (fun l => Nat.leb (length l) 3)
              (lines ++ [[strftime_ymd d; strip c; repr_float a]]) = true).
  { intros lines Hall. rewrite forallb_app. apply andb_true_iff. split.
    - apply forallb_forall. intros l Hl. apply Nat.leb_le.
      rewrite Forall_forall in Hall. now apply Hall.
    - reflexivity. }
  destruct (file w) as [old|]; cbn [append_file]; unfold complete_store.
  - destruct (complete_store_inv old Hst) as (lines & Hrun & Hall).
    rewrite tok_run_app, Hrun, tokenize_written_line by assumption.
    cbn [state pending fields rows is_empty length Nat.eqb andb].
    now apply Hdone.
  - unfold tok_init. rewrite tokenize_written_line by assumption.
    cbn [state pending fields rows is_empty length Nat.eqb andb].
    now apply (Hdone []).
Qed.

(** A record whose category is no missing-value marker comes back from
    the file after the records that were there. *)
Lemma add_then_load (d : date) (c : str) (a : Z) (w : world) :
  complete_store (file w) = true ->
  valid_date d = true ->
  date_leb timestamp_min d = true -> date_leb d timestamp_max = true ->
  is_empty (strip c) = false -> is_na (strip c) = false -> (0 < a)%Z ->
  fst (load_expenses (snd (add_expense d c a w)))
  = fst (load_expenses w) ++ [mkexpense d (strip c) (amount_of_cents a)].
Proof.
  intros Hst Hv Hmin Hmax Hc Hna Ha.
  rewrite add_expense_accepts by assumption. cbn [snd].
  rewrite load_after_append by assumption.
  f_equal. apply load_expenses_file. reflexivity.
Qed.

(** C1 fails on the code: the category NA passes the validation, its line
    is written, and pandas reads the field NA as a missing value, so the
    row is dropped on reload and the record is lost. *)
Theorem add_then_load_loses_NA_category :
  let r := add_expense (mkdate 2024 1 15) (lit "NA") 1000
             (mkworld None false []) in
  fst r = true
  /\ file (snd r) = Some (lit "2024-01-15,NA,10.0" ++ [CR; LF])
  /\ shown (snd r) = [st_success msg_added]
  /\ fst (load_expenses (snd r)) = [].
Proof. intros r. repeat split. Qed.

(** *** Files of plain lines *)

Lemma plain_store_complete (f : option str) :
  plain_store f = true -> complete_store f = true.
Proof.
  unfold plain_store. intros H. apply andb_true_iff in H. tauto.
Qed.

Lemma plain_store_inv (old : str) :
  plain_store (Some old) = true ->
  exists lines,
    tok_run tok_init old = mktok START_RECORD [] [] lines
    /\ Forall (fun l => length l <= 3)%nat lines
    /\ forallb plain_line lines = true.
Proof.
  unfold plain_store. intros H. apply andb_true_iff in H.
  destruct H as [Hc Hp].
  destruct (complete_store_inv old Hc) as (lines & Hrun & Hall).
  exists lines. rewrite Hrun in Hp. auto.
Qed.

Lemma in_timestamp_range_inv (d : date) :
  in_timestamp_range d = true ->
  valid_date d = true /\ date_leb timestamp_min d = true
  /\ date_leb d timestamp_max = true.
Proof.
  unfold in_timestamp_range. rewrite !andb_true_iff. tauto.
Qed.

(** The line [add_expense] writes is of the kind described by
    [plain_line] when its category is a marker of a missing value or a
    text that cannot be taken for a number. *)
Lemma written_line_plain (d : date) (c : str) (a : Z) :
  in_timestamp_range d = true -> (0 < a)%Z ->
  is_na c = true \/ plainly_text c = true ->
  plain_line [strftime_ymd d; c; repr_float a] = true.
Proof.
  intros Hr Ha Hc. apply in_timestamp_range_inv in Hr.
  destruct Hr as (Hv & Hmin & Hmax).
  unfold plain_line, pad_to. cbn [length Nat.sub repeat app].
  destruct Hc as [Hc|Hc].
  - rewrite Hc, orb_true_r. reflexivity.
  - rewrite to_datetime_strftime, Hc by assumption.
    unfold plain_decimal.
    rewrite plain_repr_float, to_numeric_repr_float by assumption.
    cbn [andb orb]. now rewrite orb_true_r.
Qed.

Lemma append_line_plain (f : option str) (d : date) (c : str) (a : Z) :
  plain_store f = true -> valid_date d = true ->
  plain_line [strftime_ymd d; c; repr_float a] = true ->
  plain_store (append_file f (writerow [strftime_ymd d; csv_field c;
                                        repr_float a])) = true.
Proof.
  intros Hst Hv Hl.
  assert (Hdone : forall lines,
            Forall (fun l => length l <= 3)%nat lines ->
            forallb plain_line lines = true ->
            forallb (fun l => Nat.leb (length l) 3)
              (lines ++ [[strftime_ymd d; c; repr_float a]]) = true
            /\ forallb plain_line
                 (lines ++ [[strftime_ymd d; c; repr_float a]]) = true).
  { intros lines Hall Hpl. rewrite !forallb_app. split.
    - apply andb_true_iff. split; [|reflexivity].
      apply forallb_forall. intros l Hin. apply Nat.leb_le.
      rewrite Forall_forall in Hall. now apply Hall.
    - rewrite Hpl. cbn [forallb]. now rewrite Hl. }
  destruct f as [old|]; cbn [append_file]; unfold plain_store, complete_store.
  - destruct (plain_store_inv old Hst) as (lines & Hrun & Hall & Hpl).
    rewrite tok_run_app, Hrun, tokenize_written_line by assumption.
    cbn [state pending fields rows is_empty length Nat.eqb andb].
    destruct (Hdone lines Hall Hpl) as [H1 H2]. now rewrite H1, H2.
  - unfold tok_init. rewrite tokenize_written_line by assumption.
    cbn [state pending fields rows is_empty length Nat.eqb andb].
    destruct (Hdone [] ltac:(constructor) eq_refl) as [H1 H2].
    now rewrite H1, H2.
Qed.

(** A submission of the kind described by [plain_submission] leaves a
    file of plain lines one. *)
Lemma submit_keeps_plain (w : world) (i : submission) :
  plain_store (file w) = true -> plain_submission i = true ->
  plain_store (file (submit w i)) = true.
Proof.
  destruct i as [[d c] a]. intros Hst Hi.
  unfold plain_submission in Hi. rewrite !andb_true_iff in Hi.
  destruct Hi as [[Hr _] Hc].
  unfold submit, add_expense.
  destruct (is_empty (strip c)) eqn:He; [exact Hst|].
  destruct (Z.leb_spec a 0) as [Ha|Ha]; [exact Hst|].
  cbn [snd file]. apply append_line_plain; [exact Hst | |].
  - now apply in_timestamp_range_inv in Hr.
  - apply written_line_plain; [assumption | assumption |].
    cbn [orb] in Hc. apply orb_true_iff in Hc. exact Hc.
Qed.

(** C10, as it is stated, fails.  The file holds one line that lacks its
    line end (as a file written by hand may); the line of the new record
    is appended to that line, the two make one line of five fields, and
    the record does not come back. *)
Lemma comma_category_lost_after_unfinished_line :
  let w := mkworld (Some (lit "2024-01-14,Travel,30.0")) false [] in
  let r := add_expense (mkdate 2024 1 15) (lit "Food, drink") 1050 w in
  let text := lit "2024-01-14,Travel,30.02024-01-15," ++ [dquote]
              ++ lit "Food, drink" ++ [dquote] ++ lit ",10.5" ++ [CR; LF] in
  fst r = true
  /\ file (snd r) = Some text
  /\ tokenize text
     = Some [[lit "2024-01-14"; lit "Travel"; lit "30.02024-01-15";
              lit "Food, drink"; lit "10.5"]]
  /\ ~ In (mkexpense (mkdate 2024 1 15) (lit "Food, drink")
             (amount_of_cents 1050))
          (fst (load_expenses (snd r))).
Proof.
  intros w r text. split; [reflexivity|]. split; [reflexivity|].
  split; [reflexivity|]. vm_compute. intros H. exact H.
Qed.

(** C10, amended.  The file is one of complete lines of the kind
    described by [plain_line] (as [add_expense] leaves it), the date is
    one a pandas Timestamp can hold and the amount is within
    [amount_bound].  Then a record whose category holds a comma is
    written with the trimmed category between quotes, so that the line
    read back has exactly three fields, the category whole among them;
    and reloading the file gives the records that were there followed by
    this record, its date, trimmed category and amount intact. *)
Theorem comma_category_round_trip (d : date) (c : str) (a : Z) (w : world) :
  plain_store (file w) = true ->
  in_timestamp_range d = true ->
  In comma c -> (0 < a < amount_bound)%Z ->
  fst (add_expense d c a w) = true
  /\ csv_field (strip c) = [dquote] ++ double_quotes (strip c) ++ [dquote]
  /\ file (snd (add_expense d c a w))
     = append_file (file w)
         (writerow [strftime_ymd d; csv_field (strip c); repr_float a])
  /\ tokenize (writerow [strftime_ymd d; csv_field (strip c); repr_float a])
     = Some [[strftime_ymd d; strip c; repr_float a]]
  /\ fst (load_expenses (snd (add_expense d c a w)))
     = fst (load_expenses w) ++ [mkexpense d (strip c) (amount_of_cents a)].
Proof.
  intros Hst Hr Hcomma [Ha _].
  apply plain_store_complete in Hst.
  apply in_timestamp_range_inv in Hr. destruct Hr as (Hv & Hmin & Hmax).
  apply In_strip in Hcomma; [|reflexivity].
  assert (Hc : is_empty (strip c) = false).
  { destruct (strip c); [destruct Hcomma | reflexivity]. }
  assert (Hq : needs_quote (strip c) = true).
  { unfold needs_quote. apply existsb_exists. exists comma.
    split; [assumption | reflexivity]. }
  split; [now rewrite add_expense_accepts|].
  split; [unfold csv_field; now rewrite Hq|].
  split; [now rewrite add_expense_accepts|].
  split; [now apply tokenize_one_line|].
  apply add_then_load; try assumption.
  now apply is_na_comma.
Qed.

Lemma comma_category_round_trip_witness :
  let w := mkworld (Some (lit "2024-01-14,Travel,30.0" ++ [CR; LF])) false [] in
  let r := add_expense (mkdate 2024 1 15) (lit " Food, drink ") 1050 w in
  file (snd r)
  = Some (lit "2024-01-14,Travel,30.0" ++ [CR; LF]
          ++ lit "2024-01-15," ++ [dquote] ++ lit "Food, drink" ++ [dquote]
          ++ lit ",10.5" ++ [CR; LF])
  /\ fst (load_expenses (snd r))
     = fst (load_expenses w)
       ++ [mkexpense (mkdate 2024 1 15) (lit "Food, drink")
             (amount_of_cents 1050)].
Proof.
  intros w r. subst r.
  destruct (comma_category_round_trip (mkdate 2024 1 15)
              (lit " Food, drink ") 1050 w) as (_ & _ & H3 & _ & H5).
  - reflexivity.
  - reflexivity.
  - vm_compute. tauto.
  - vm_compute. split; reflexivity.
  - split; [rewrite H3; reflexivity | exact H5].
Defined.

(** * Further properties of the code *)

(** ** A sequence of submissions *)

Lemma decode_written_line_na (d : date) (c : str) (a : Z) :
  is_na c = true -> decode_line [strftime_ymd d; c; repr_float a] = None.
Proof.
  intros Hna. unfold decode_line, pad_to. cbn [length Nat.sub repeat app].
  rewrite Hna, orb_true_r. reflexivity.
Qed.

(** After a line of three fields is appended to a complete file, the
    frame is the frame of before and what the line stands for. *)
Lemma load_after_line (f : option str) (d : date) (c : str) (a : Z)
    (u u' : bool) (m m' : list message) :
  complete_store f = true -> valid_date d = true ->
  fst (load_expenses
         (mkworld (append_file f (writerow [strftime_ymd d; csv_field c;
                                            repr_float a])) u' m'))
  = fst (load_expenses (mkworld f u m))
    ++ keep_some [decode_line [strftime_ymd d; c; repr_float a]].
Proof.
  intros Hst Hv.
  set (row := writerow [strftime_ymd d; csv_field c; repr_float a]).
  set (l := [strftime_ymd d; c; repr_float a]).
  destruct f as [old|]; cbn [append_file].
  - destruct (complete_store_inv old Hst) as (lines & Hrun & Hall).
    rewrite (load_expenses_narrow _ (old ++ row) (lines ++ [l]));
      [| reflexivity | |].
    + rewrite (load_expenses_narrow (mkworld (Some old) u m) old lines);
        [| reflexivity | | assumption].
      * cbn [fst]. now rewrite map_app, keep_some_app.
      * unfold tokenize. now rewrite Hrun.
    + unfold tokenize. rewrite tok_run_app, Hrun. subst row l.
      now rewrite tokenize_written_line.
    + apply Forall_app; split; [assumption|]. repeat constructor.
  - rewrite (load_expenses_narrow _ row [l]);
      [reflexivity | reflexivity | | repeat constructor].
    unfold tokenize, tok_init. subst row l.
    now rewrite tokenize_written_line.
Qed.

Lemma submit_step (w : world) (d : date) (c : str) (a : Z) :
  complete_store (file w) = true -> in_timestamp_range d = true ->
  fst (load_expenses (submit w (d, c, a)))
  = fst (load_expenses w)
    ++ map record_of (filter comes_back [(d, c, a)]).
Proof.
  intros Hst Hr. unfold in_timestamp_range in Hr.
  rewrite !andb_true_iff in Hr. destruct Hr as [[Hv Hmin] Hmax].
  unfold submit, add_expense. cbn [filter comes_back].
  destruct (is_empty (strip c)) eqn:Hc; cbn [negb andb snd map].
  { rewrite app_nil_r. now apply load_expenses_file. }
  destruct (Z.leb_spec a 0) as [Ha|Ha].
  { rewrite (proj2 (Z.ltb_ge 0 a)) by lia. cbn [map].
    rewrite app_nil_r. now apply load_expenses_file. }
  rewrite (proj2 (Z.ltb_lt 0 a)) by lia. cbn [snd andb].
  rewrite (load_after_line (file w) d (strip c) a
             (expenses_updated w) true (shown w)) by assumption.
  rewrite (load_expenses_file
             (mkworld (file w) (expenses_updated w) (shown w)) w)
    by reflexivity.
  f_equal. destruct (is_na (strip c)) eqn:Hna; cbn [negb map record_of].
  - now rewrite decode_written_line_na.
  - now rewrite decode_written_line.
Qed.

Lemma submit_all_load (inputs : list submission) (w : world) :
  complete_store (file w) = true ->
  Forall (fun i => in_timestamp_range (fst (fst i)) = true) inputs ->
  fst (load_expenses (submit_all inputs w))
  = fst (load_expenses w) ++ map record_of (filter comes_back inputs)
  /\ complete_store (file (submit_all inputs w)) = true.
Proof.
  intros Hst Hall. revert w Hst.
  induction Hall as [|[[d c] a] inputs Hd _ IH]; intros w Hst.
  - cbn [submit_all fold_left filter map]. now rewrite app_nil_r.
  - cbn [fst] in Hd.
    assert (Hst' : complete_store (file (submit w (d, c, a))) = true).
    { unfold submit. apply add_expense_keeps_complete; [|assumption].
      unfold in_timestamp_range in Hd. rewrite !andb_true_iff in Hd. tauto. }
    change (submit_all ((d, c, a) :: inputs) w)
      with (submit_all inputs (submit w (d, c, a))).
    destruct (IH _ Hst') as [IH1 IH2]. split; [|exact IH2].
    rewrite IH1, submit_step by assumption.
    rewrite <- app_assoc, <- map_app. f_equal. f_equal.
    change ((d, c, a) :: inputs) with ([(d, c, a)] ++ inputs).
    now rewrite filter_app.
Qed.

Lemma submit_all_keeps_plain (inputs : list submission) (w : world) :
  plain_store (file w) = true ->
  forallb plain_submission inputs = true ->
  plain_store (file (submit_all inputs w)) = true.
Proof.
  revert w. induction inputs as [|i inputs IH]; intros w Hst Hall.
  - exact Hst.
  - cbn [forallb] in Hall. apply andb_true_iff in Hall.
    destruct Hall as [Hi Hall].
    change (submit_all (i :: inputs) w) with (submit_all inputs (submit w i)).
    apply IH; [|exact Hall]. now apply submit_keeps_plain.
Qed.

(** X1: the form submitted any number of times.  The file is one of
    complete lines of the kind described by [plain_line], and the
    submissions are of the kind described by [plain_submission] (a date a
    Timestamp holds, an amount within [amount_bound], a category that is
    a text no number or boolean is written like, or a marker of a missing
    value, or blank).  Then reloading gives the records that were there,
    then, in the order of submission, the records of the submissions that
    passed the validation, except those whose trimmed category is one of
    the markers pandas reads as a missing value, which are written and
    then lost on reload; and the file is again one of such lines. *)
Theorem submissions_then_reload (inputs : list submission) (w : world) :
  plain_store (file w) = true ->
  forallb plain_submission inputs = true ->
  fst (load_expenses (submit_all inputs w))
  = fst (load_expenses w) ++ map record_of (filter comes_back inputs)
  /\ plain_store (file (submit_all inputs w)) = true.
Proof.
  intros Hst Hall. split; [|now apply submit_all_keeps_plain].
  apply submit_all_load; [now apply plain_store_complete|].
  apply Forall_forall. intros [[d c] a] Hi. cbn [fst].
  rewrite forallb_forall in Hall. specialize (Hall _ Hi).
  unfold plain_submission in Hall. rewrite !andb_true_iff in Hall. tauto.
Qed.

Lemma submissions_then_reload_witness :
  let inputs := [(mkdate 2024 1 15, lit "Food", 1050%Z);
                 (mkdate 2024 1 16, lit "  ", 500%Z);
                 (mkdate 2024 1 17, lit "N/A", 700%Z);
                 (mkdate 2024 1 18, lit " Travel ", 3000%Z)] in
  fst (load_expenses (submit_all inputs (mkworld None false [])))
  = [mkexpense (mkdate 2024 1 15) (lit "Food") (amount_of_cents 1050);
     mkexpense (mkdate 2024 1 18) (lit "Travel") (amount_of_cents 3000)].
Proof.
  intros inputs.
  destruct (submissions_then_reload inputs (mkworld None false []))
    as [H _].
  - reflexivity.
  - reflexivity.
  - rewrite H. reflexivity.
Defined.

(** X2: whatever is submitted, and however often, the text the file held
    before is still there at the start of the file: [add_expense] only
    ever adds at the end; and the session flag, once set, stays set. *)
Theorem submissions_only_append (inputs : list submission) (w : world)
    (old : str) :
  file w = Some old ->
  (exists added, file (submit_all inputs w) = Some (old ++ added))
  /\ (expenses_updated w = true ->
      expenses_updated (submit_all inputs w) = true).
Proof.
  revert w old. induction inputs as [|[[d c] a] inputs IH]; intros w old Hf.
  - split; [exists []; now rewrite app_nil_r | auto].
  - change (submit_all ((d, c, a) :: inputs) w)
      with (submit_all inputs (submit w (d, c, a))).
    assert (Hstep : (exists row, file (submit w (d, c, a)) = Some (old ++ row))
                    /\ (expenses_updated w = true ->
                        expenses_updated (submit w (d, c, a)) = true)).
    { unfold submit, add_expense.
      destruct (is_empty (strip c)); cbn [snd file expenses_updated].
      - split; [exists []; now rewrite app_nil_r | auto].
      - destruct (a <=? 0)%Z; cbn [snd file expenses_updated].
        + split; [exists []; now rewrite app_nil_r | auto].
        + rewrite Hf. cbn [append_file]. split; [eexists; reflexivity | auto]. }
    destruct Hstep as [[row Hrow] Hflag].
    destruct (IH _ _ Hrow) as [[added Hadded] Hflag'].
    split.
    + exists (row ++ added). now rewrite Hadded, app_assoc.
    + auto.
Qed.

Lemma submissions_only_append_witness :
  exists added,
    file (submit_all [(mkdate 2024 1 15, lit "Food", 1050%Z);
                      (mkdate 2024 1 16, lit "", 1%Z)]
            (mkworld (Some (lit "not a record")) false []))
    = Some (lit "not a record" ++ added).
Proof.
  apply (submissions_only_append
           [(mkdate 2024 1 15, lit "Food", 1050%Z);
            (mkdate 2024 1 16, lit "", 1%Z)]
           (mkworld (Some (lit "not a record")) false [])
           (lit "not a record")).
  reflexivity.
Defined.

(** ** Lines that are not records *)

Lemma is_blank_spec (c : char) :
  is_blank c = true -> (c =? LF)%N = false /\ (c =? CR)%N = false.
Proof.
  unfold is_blank, LF, CR. rewrite orb_true_iff, !N.eqb_eq, !N.eqb_neq. lia.
Qed.

Lemma run_whitespace_line (ws p : str) (rs : list (list str)) :
  forallb is_blank ws = true ->
  tok_run (mktok WHITESPACE_LINE p [] rs) ws
  = mktok WHITESPACE_LINE (p ++ ws) [] rs.
Proof.
  revert p. induction ws as [|c ws IH]; intros p H.
  - simpl. now rewrite app_nil_r.
  - cbn [forallb] in H. apply andb_true_iff in H. destruct H as [Hc Hws].
    destruct (is_blank_spec c Hc) as [H1 H2].
    cbn [tok_run fold_left]. unfold tok_step at 2; cbn [state].
    rewrite H1, H2, Hc. unfold push_char; cbn.
    change (fold_left tok_step ws (mktok WHITESPACE_LINE (p ++ [c]) [] rs))
      with (tok_run (mktok WHITESPACE_LINE (p ++ [c]) [] rs) ws).
    rewrite IH by assumption. now rewrite <- app_assoc.
Qed.

Lemma run_blank_line (ws eol : str) (rs : list (list str)) :
  forallb is_blank ws = true -> eol = [LF] \/ eol = [CR; LF] ->
  tok_run (mktok START_RECORD [] [] rs) (ws ++ eol)
  = mktok START_RECORD [] [] rs.
Proof.
  intros Hws Heol. rewrite tok_run_app.
  destruct ws as [|c ws].
  - destruct Heol as [-> | ->]; reflexivity.
  - cbn [forallb] in Hws. apply andb_true_iff in Hws.
    destruct Hws as [Hc Hws]. destruct (is_blank_spec c Hc) as [H1 H2].
    cbn [tok_run fold_left]. unfold tok_step at 2, on_start_record;
      cbn [state].
    rewrite H1, H2, Hc. unfold set_state, push_char; cbn.
    change (fold_left tok_step ws (mktok WHITESPACE_LINE [c] [] rs))
      with (tok_run (mktok WHITESPACE_LINE [c] [] rs) ws).
    rewrite run_whitespace_line by assumption.
    destruct Heol as [-> | ->]; reflexivity.
Qed.

(** X3: an empty line, or a line of spaces and tabs, added at the end of a
    file of complete lines changes nothing: the frame is the same, no error
    is shown, and the file is still one of complete lines. *)
Theorem blank_line_is_skipped (old ws eol : str) (u : bool)
    (m : list message) :
  complete_store (Some old) = true ->
  forallb is_blank ws = true -> eol = [LF] \/ eol = [CR; LF] ->
  load_expenses (mkworld (Some (old ++ ws ++ eol)) u m)
  = (fst (load_expenses (mkworld (Some old) u m)),
     mkworld (Some (old ++ ws ++ eol)) u m)
  /\ complete_store (Some (old ++ ws ++ eol)) = true.
Proof.
  intros Hst Hws Heol.
  destruct (complete_store_inv old Hst) as (lines & Hrun & Hall).
  assert (Hrun' : tok_run tok_init (old ++ ws ++ eol)
                  = mktok START_RECORD [] [] lines).
  { now rewrite tok_run_app, Hrun, run_blank_line. }
  split.
  - rewrite (load_expenses_narrow _ (old ++ ws ++ eol) lines);
      [| reflexivity | unfold tokenize; now rewrite Hrun' | assumption].
    rewrite (load_expenses_narrow (mkworld (Some old) u m) old lines);
      [reflexivity | reflexivity | unfold tokenize; now rewrite Hrun
      | assumption].
  - unfold complete_store. rewrite Hrun'. cbn.
    apply forallb_forall. intros l Hl. apply Nat.leb_le.
    rewrite Forall_forall in Hall. now apply Hall.
Qed.

Lemma blank_line_is_skipped_witness :
  fst (load_expenses
         (mkworld (Some ((lit "2024-01-15,Food,10.0" ++ [CR; LF])
                         ++ lit "   " ++ [LF])) false []))
  = fst (load_expenses
           (mkworld (Some (lit "2024-01-15,Food,10.0" ++ [CR; LF]))
              false [])).
Proof.
  destruct (blank_line_is_skipped (lit "2024-01-15,Food,10.0" ++ [CR; LF])
              (lit "   ") [LF] false []) as [H _].
  - reflexivity.
  - reflexivity.
  - left. reflexivity.
  - rewrite H. reflexivity.
Defined.

Lemma double_quotes_without_quote (s : str) :
  ~ In dquote s -> double_quotes s = s.
Proof.
  induction s as [|c s IH]; intros H; [reflexivity|].
  unfold double_quotes. cbn [flat_map]. fold (double_quotes s).
  destruct (N.eqb_spec c dquote) as [->|Hne].
  - exfalso. apply H. now left.
  - cbn [app]. rewrite IH; [reflexivity|]. intros Hin. apply H. now right.
Qed.

(** X4: a quote that opens a field and is never closed costs the whole
    file: after complete lines, a line whose second field starts with a
    quote, with no other quote up to the end of the file, makes [read_csv]
    raise; the error is shown and the frame is empty, whatever the lines
    before held. *)
Theorem open_quote_empties_frame (old d s : str) (u : bool)
    (m : list message) :
  complete_store (Some old) = true ->
  d <> [] -> forallb is_plain d = true -> ~ In dquote s ->
  load_expenses (mkworld (Some (old ++ d ++ [comma] ++ dquote :: s)) u m)
  = ([], mkworld (Some (old ++ d ++ [comma] ++ dquote :: s)) u
           (m ++ [st_error msg_load_error])).
Proof.
  intros Hst Hd Hpd Hs.
  destruct (complete_store_inv old Hst) as (lines & Hrun & _).
  assert (Htok : tokenize (old ++ d ++ [comma] ++ dquote :: s) = None).
  { unfold tokenize.
    rewrite tok_run_app, Hrun, app_assoc, tok_run_app.
    rewrite run_first_field by assumption.
    change (dquote :: s) with ([dquote] ++ s). rewrite tok_run_app.
    change (tok_run (mktok START_FIELD [] [d] lines) [dquote])
      with (mktok IN_QUOTED_FIELD [] [d] lines).
    rewrite <- (double_quotes_without_quote s Hs), run_in_quoted.
    reflexivity. }
  unfold load_expenses, read_csv. cbn [file]. now rewrite Htok.
Qed.

Lemma open_quote_empties_frame_witness :
  fst (load_expenses
         (mkworld (Some ((lit "2024-01-15,Food,10.0" ++ [CR; LF])
                         ++ lit "2024-01-16" ++ [comma]
                         ++ dquote :: lit "Food,5.0" ++ [CR; LF]))
            false []))
  = [].
Proof.
  rewrite (open_quote_empties_frame
             (lit "2024-01-15,Food,10.0" ++ [CR; LF]) (lit "2024-01-16")
             (lit "Food,5.0" ++ [CR; LF]) false []).
  - reflexivity.
  - reflexivity.
  - discriminate.
  - reflexivity.
  - vm_compute. intuition discriminate.
Defined.

Lemma repr_float_nonempty (a : Z) : repr_float a <> [].
Proof.
  unfold repr_float. intros E. apply (f_equal (@length _)) in E.
  rewrite !length_app in E. change (length (lit ".")) with 1%nat in E.
  simpl in E. lia.
Qed.

(** X5: the line of a record is read the same however it ends: with the
    CR LF [csv.writer] puts, with LF alone or CR alone as an editor may
    leave it, or with nothing at the very end of the file.  The lines
    before it are complete and of the kind described by [plain_line], and
    so is the line: a date a Timestamp holds, a category that is a text no
    number or boolean is written like (or a marker of a missing value),
    an amount that is positive and within [amount_bound]. *)
Theorem last_line_any_ending (old : str) (d : date) (c : str) (a : Z)
    (ending : str) (u : bool) (m : list message) :
  plain_store (Some old) = true -> in_timestamp_range d = true ->
  is_na c || plainly_text c = true -> (0 < a < amount_bound)%Z ->
  In ending [[]; [LF]; [CR]; [CR; LF]] ->
  let text := old ++ strftime_ymd d ++ [comma] ++ csv_field c ++ [comma]
              ++ repr_float a ++ ending in
  load_expenses (mkworld (Some text) u m)
  = (fst (load_expenses (mkworld (Some old) u m))
     ++ keep_some [decode_line [strftime_ymd d; c; repr_float a]],
     mkworld (Some text) u m).
Proof.
  intros Hst Hr _ _ Hend text.
  apply plain_store_complete in Hst.
  apply in_timestamp_range_inv in Hr. destruct Hr as (Hv & _ & _).
  destruct (complete_store_inv old Hst) as (lines & Hrun & Hall).
  destruct (plain_strftime d Hv) as [Hpd Hned].
  set (l := [strftime_ymd d; c; repr_float a]).
  assert (Htok : tokenize text = Some (lines ++ [l])).
  { unfold tokenize. subst text.
    replace (old ++ strftime_ymd d ++ [comma] ++ csv_field c ++ [comma]
             ++ repr_float a ++ ending)
      with (old ++ (strftime_ymd d ++ [comma])
            ++ (csv_field c ++ [comma]) ++ repr_float a ++ ending)
      by (now rewrite <- !app_assoc).
    rewrite tok_run_app, Hrun, tok_run_app, run_first_field by assumption.
    rewrite tok_run_app, run_csv_field, tok_run_app.
    rewrite run_plain_field
      by (apply plain_not_special, plain_repr_float).
    pose proof (repr_float_nonempty a) as Hne.
    destruct (repr_float a) as [|x xs] eqn:Ea; [congruence|].
    subst l. rewrite ?Ea.
    cbn [In] in Hend.
    destruct Hend as [<-|[<-|[<-|[<-|[]]]]]; reflexivity. }
  rewrite (load_expenses_narrow _ text (lines ++ [l]));
    [| reflexivity | assumption
     | apply Forall_app; split; [assumption | repeat constructor]].
  rewrite (load_expenses_narrow (mkworld (Some old) u m) old lines);
    [| reflexivity | unfold tokenize; now rewrite Hrun | assumption].
  cbn [fst]. now rewrite map_app, keep_some_app.
Qed.

Lemma last_line_any_ending_witness :
  fst (load_expenses
         (mkworld (Some ((lit "2024-01-14,Travel,30.0" ++ [LF])
                         ++ lit "2024-01-15,Food,10.5")) false []))
  = fst (load_expenses
           (mkworld (Some (lit "2024-01-14,Travel,30.0" ++ [LF])) false []))
    ++ [mkexpense (mkdate 2024 1 15) (lit "Food") (amount_of_cents 1050)].
Proof.
  pose proof (last_line_any_ending (lit "2024-01-14,Travel,30.0" ++ [LF])
                (mkdate 2024 1 15) (lit "Food") 1050 [] false []) as H.
  cbv zeta in H.
  assert (E : decode_line [strftime_ymd (mkdate 2024 1 15); lit "Food";
                           repr_float 1050]
              = Some (mkexpense (mkdate 2024 1 15) (lit "Food")
                        (amount_of_cents 1050))).
  { apply decode_written_line; reflexivity. }
  specialize (H eq_refl eq_refl eq_refl (conj eq_refl eq_refl)
                (or_introl eq_refl)).
  rewrite E in H. apply (f_equal fst) in H. exact H.
Defined.

(** ** Dates and labels as texts, in order *)

Lemma str_compare_app (a a' b b' : str) :
  length a = length a' ->
  str_compare (a ++ b) (a' ++ b')
  = match str_compare a a' with
    | Eq => str_compare b b'
    | cmp => cmp
    end.
Proof.
  revert a'. induction a as [|x a IH]; intros [|y a'] Hlen;
    try discriminate; [reflexivity|].
  cbn [app str_compare]. destruct (x ?= y)%N; try reflexivity.
  apply IH. now injection Hlen.
Qed.

Lemma digits_value_cons (c : char) (s : str) :
  digits_value (c :: s)
  = (digit_val c * 10 ^ N.of_nat (length s) + digits_value s)%N.
Proof.
  change (c :: s) with ([c] ++ s). rewrite digits_value_app.
  unfold digits_value at 1. cbn [fold_left]. lia.
Qed.

Lemma digits_value_bound (s : str) :
  all_digits s = true -> (digits_value s < 10 ^ N.of_nat (length s))%N.
Proof.
  induction s as [|c s IH]; intros H.
  - cbn. lia.
  - cbn [all_digits forallb] in H. apply andb_true_iff in H.
    destruct H as [Hc Hs]. apply is_digit_bounds in Hc.
    rewrite digits_value_cons. cbn [length].
    rewrite Nat2N.inj_succ, N.pow_succ_r'.
    specialize (IH Hs). unfold digit_val. nia.
Qed.

(** Texts of digits of the same length are in the order of the numbers
    they denote. *)
Lemma str_compare_digits (s t : str) :
  length s = length t -> all_digits s = true -> all_digits t = true ->
  str_compare s t = (digits_value s ?= digits_value t)%N.
Proof.
  revert t. induction s as [|c s IH]; intros [|c' t] Hlen Hs Ht;
    try discriminate; [reflexivity|].
  cbn [all_digits forallb] in Hs, Ht.
  apply andb_true_iff in Hs. apply andb_true_iff in Ht.
  destruct Hs as [Hc Hs], Ht as [Hc' Ht].
  apply is_digit_bounds in Hc. apply is_digit_bounds in Hc'.
  injection Hlen as Hlen.
  pose proof (digits_value_bound s Hs) as Bs.
  pose proof (digits_value_bound t Ht) as Bt.
  rewrite !digits_value_cons, <- Hlen in *.
  cbn [str_compare]. unfold digit_val.
  destruct (N.compare_spec c c') as [->|Hlt|Hgt].
  - rewrite IH by assumption.
    destruct (N.compare_spec (digits_value s) (digits_value t));
      symmetry;
      [apply N.compare_eq_iff | apply N.compare_lt_iff
      | apply N.compare_gt_iff]; lia.
  - symmetry. apply N.compare_lt_iff. nia.
  - symmetry. apply N.compare_gt_iff. nia.
Qed.

Lemma pad2_digits (n : N) :
  (n < 100)%N -> all_digits (pad2 n) = true /\ length (pad2 n) = 2%nat.
Proof.
  intros H. split; [|reflexivity]. unfold pad2. cbn [all_digits forallb].
  rewrite !is_digit_char by lia. reflexivity.
Qed.

Lemma pad4_digits (n : N) :
  (n <= 9999)%N -> all_digits (pad4 n) = true /\ length (pad4 n) = 4%nat.
Proof.
  intros H. rewrite pad4_four_digits by assumption. split; [|reflexivity].
  cbn [all_digits forallb]. rewrite !is_digit_char by lia. reflexivity.
Qed.

Lemma str_compare_pad4 (x y : N) :
  (x <= 9999)%N -> (y <= 9999)%N ->
  str_compare (pad4 x) (pad4 y) = (x ?= y)%N.
Proof.
  intros Hx Hy.
  destruct (pad4_digits x Hx) as [Dx Lx], (pad4_digits y Hy) as [Dy Ly].
  rewrite str_compare_digits, !pad4_value by congruence. reflexivity.
Qed.

Lemma str_compare_pad2 (x y : N) :
  (x < 100)%N -> (y < 100)%N ->
  str_compare (pad2 x) (pad2 y) = (x ?= y)%N.
Proof.
  intros Hx Hy.
  destruct (pad2_digits x Hx) as [Dx Lx], (pad2_digits y Hy) as [Dy Ly].
  rewrite str_compare_digits, !pad2_value by congruence. reflexivity.
Qed.

Lemma str_compare_hyphen (s t : str) :
  str_compare (lit "-" ++ s) (lit "-" ++ t) = str_compare s t.
Proof. reflexivity. Qed.

Lemma period_str_compare (p q : period) :
  (fst p <= 9999)%N -> (fst q <= 9999)%N ->
  (snd p < 100)%N -> (snd q < 100)%N ->
  str_compare (period_str p) (period_str q) = period_compare p q.
Proof.
  intros Hp Hq Hmp Hmq. unfold period_str, period_compare.
  rewrite str_compare_app
    by (rewrite (proj2 (pad4_digits _ Hp)), (proj2 (pad4_digits _ Hq));
        reflexivity).
  rewrite str_compare_pad4, str_compare_hyphen, str_compare_pad2
    by assumption.
  reflexivity.
Qed.

(** X6: from the year 1000 on, where the year is written with its four
    digits, the texts [add_expense] writes and the table shows for dates
    are in the order of the dates: comparing two of them as strings is
    comparing the dates, so the sort of line 254 on the text column is a
    sort by date, and two dates never share a text. *)
Theorem strftime_keeps_order (a b : date) :
  valid_date a = true -> valid_date b = true ->
  (1000 <= year a)%N -> (1000 <= year b)%N ->
  str_compare (strftime_ymd a) (strftime_ymd b) = date_compare a b
  /\ (strftime_ymd a = strftime_ymd b -> a = b).
Proof.
  intros Ha Hb _ _.
  pose proof (valid_date_bounds a Ha) as (Hya & Hma & Hda).
  pose proof (valid_date_bounds b Hb) as (Hyb & Hmb & Hdb).
  assert (Hcmp : str_compare (strftime_ymd a) (strftime_ymd b)
                 = date_compare a b).
  { unfold strftime_ymd, date_compare.
    rewrite str_compare_app
      by (rewrite (proj2 (pad4_digits (year a) ltac:(lia))),
            (proj2 (pad4_digits (year b) ltac:(lia))); reflexivity).
    rewrite str_compare_pad4, str_compare_hyphen by lia.
    rewrite str_compare_app by reflexivity.
    rewrite str_compare_pad2, str_compare_hyphen by lia.
    rewrite str_compare_pad2 by lia. reflexivity. }
  split; [exact Hcmp|].
  intros E. rewrite E in Hcmp.
  rewrite (proj2 (str_compare_eq _ _) eq_refl) in Hcmp.
  symmetry in Hcmp. unfold date_compare in Hcmp.
  destruct a as [y m d], b as [y' m' d']. cbn [year month day] in *.
  destruct (N.compare_spec y y'); try discriminate.
  destruct (N.compare_spec m m'); try discriminate.
  apply N.compare_eq_iff in Hcmp. congruence.
Qed.

Lemma strftime_keeps_order_witness :
  str_compare (strftime_ymd (mkdate 2023 12 31))
    (strftime_ymd (mkdate 2024 1 1)) = Lt.
Proof.
  destruct (strftime_keeps_order (mkdate 2023 12 31) (mkdate 2024 1 1))
    as [H _].
  - reflexivity.
  - reflexivity.
  - vm_compute. discriminate.
  - vm_compute. discriminate.
  - rewrite H. reflexivity.
Defined.

(** ** The summaries and the filters together *)

Lemma StronglySorted_map_in {A B : Type} (R : A -> A -> Prop)
    (S : B -> B -> Prop) (f : A -> B) (l : list A) :
  (forall x y, In x l -> In y l -> R x y -> S (f x) (f y)) ->
  StronglySorted R l -> StronglySorted S (map f l).
Proof.
  intros H Hs. induction Hs as [|x l Hs IH Hall]; simpl; constructor.
  - apply IH. intros a b Ha Hb. apply H; now right.
  - apply Forall_forall. intros b Hb. apply in_map_iff in Hb.
    destruct Hb as (y & <- & Hy). rewrite Forall_forall in Hall.
    apply H; [now left | now right | now apply Hall].
Qed.

Lemma monthly_group_period (df : list expense) (r : period * Qc) :
  In r (groupby_sum period_compare
          (map (fun e => (to_period_M (col_date e), col_amount e)) df)) ->
  exists e, In e df /\ fst r = to_period_M (col_date e).
Proof.
  destruct r as [[y m] s]. intros H. apply In_monthly_groups in H.
  destruct H as [(e & He & <- & <-) _]. exists e. auto.
Qed.

(** X7: the rows of the monthly summary come in the order of time, each
    month before the later ones; for calendar dates their labels are then
    in ascending order as texts too. *)
Theorem monthly_summary_chronological (df : list expense) :
  Forall (fun e => valid_date (col_date e) = true) df ->
  (exists groups,
      create_monthly_summary df
      = map (fun r => (period_str (fst r), snd r)) groups
      /\ StronglySorted
           (fun r1 r2 =>
              (fst (fst r1) < fst (fst r2))%N
              \/ (fst (fst r1) = fst (fst r2)
                  /\ (snd (fst r1) < snd (fst r2))%N)) groups)
  /\ StronglySorted (fun r1 r2 => str_compare (fst r1) (fst r2) = Lt)
       (create_monthly_summary df).
Proof.
  intros Hv. rewrite monthly_summary_unfold.
  pose proof (monthly_groups_sorted df) as Hs.
  set (groups := groupby_sum period_compare
                   (map (fun e => (to_period_M (col_date e), col_amount e))
                      df)) in *.
  split.
  - exists groups. split; [reflexivity|].
    eapply StronglySorted_impl; [|exact Hs].
    intros x y H. now apply period_compare_lt.
  - apply (StronglySorted_map_in (key_lt period_compare)); [|exact Hs].
    intros x y Hx Hy Hxy. cbn [fst].
    destruct (monthly_group_period df x Hx) as (ex & Hex & Ex).
    destruct (monthly_group_period df y Hy) as (ey & Hey & Ey).
    rewrite Forall_forall in Hv.
    pose proof (valid_date_bounds _ (Hv ex Hex)) as (Bx1 & Bx2 & _).
    pose proof (valid_date_bounds _ (Hv ey Hey)) as (By1 & By2 & _).
    rewrite period_str_compare; [exact Hxy | | | |];
      rewrite ?Ex, ?Ey; unfold to_period_M; cbn [fst snd]; lia.
Qed.

Lemma monthly_summary_chronological_witness :
  map fst
    (create_monthly_summary
       [mkexpense (mkdate 2024 2 1) (lit "Food") (Q2Qc 20);
        mkexpense (mkdate 2023 12 15) (lit "Food") (Q2Qc 10);
        mkexpense (mkdate 2024 2 20) (lit "Rent") (Q2Qc 5)])
  = [lit "2023-12"; lit "2024-02"]
  /\ StronglySorted (fun r1 r2 => str_compare (fst r1) (fst r2) = Lt)
       (create_monthly_summary
          [mkexpense (mkdate 2024 2 1) (lit "Food") (Q2Qc 20);
           mkexpense (mkdate 2023 12 15) (lit "Food") (Q2Qc 10);
           mkexpense (mkdate 2024 2 20) (lit "Rent") (Q2Qc 5)]).
Proof.
  split; [reflexivity|].
  apply (monthly_summary_chronological
           [mkexpense (mkdate 2024 2 1) (lit "Food") (Q2Qc 20);
            mkexpense (mkdate 2023 12 15) (lit "Food") (Q2Qc 10);
            mkexpense (mkdate 2024 2 20) (lit "Rent") (Q2Qc 5)]).
  repeat constructor.
Defined.

Lemma filter_category_other (c : str) (df : list expense) :
  c <> lit "All" ->
  filter_category c df = filter (fun e => str_eqb (col_category e) c) df.
Proof.
  intros Hc. unfold filter_category.
  now rewrite (proj2 (str_eqb_neq _ _) Hc).
Qed.



(** X9: a category named All cannot be singled out.  When the frame has a
    record of category All and a record of another category, none of the
    options of the filter shows the records of category All and only
    them: All itself is the choice that shows everything. *)
Theorem category_named_All_cannot_be_selected (df : list expense)
    (e1 e2 : expense) (s : str) :
  In e1 df -> col_category e1 = lit "All" ->
  In e2 df -> col_category e2 <> lit "All" ->
  filter_category s df
  <> filter (fun e => str_eqb (col_category e) (lit "All")) df.
Proof.
  intros H1 C1 H2 C2 E.
  destruct (str_eqb s (lit "All")) eqn:Hs.
  - unfold filter_category in E. rewrite Hs in E. cbn [negb] in E.
    rewrite E in H2. apply filter_In in H2. destruct H2 as [_ H2].
    apply str_eqb_eq in H2. contradiction.
  - assert (Hin : In e1 (filter_category s df)).
    { rewrite E. apply filter_In. split; [exact H1|].
      now apply str_eqb_eq. }
    unfold filter_category in Hin. rewrite Hs in Hin. cbn [negb] in Hin.
    apply filter_In in Hin. destruct Hin as [_ Hin].
    apply str_eqb_eq in Hin. apply str_eqb_neq in Hs.
    congruence.
Qed.

Lemma category_named_All_cannot_be_selected_witness :
  let df := [mkexpense (mkdate 2024 1 1) (lit "All") (Q2Qc 10);
             mkexpense (mkdate 2024 1 2) (lit "Food") (Q2Qc 30)] in
  filter_category (lit "All") df
  <> filter (fun e => str_eqb (col_category e) (lit "All")) df
  /\ filter_category (lit "All") df = df.
Proof.
  intros df. split; [|reflexivity].
  apply (category_named_All_cannot_be_selected df
           (mkexpense (mkdate 2024 1 1) (lit "All") (Q2Qc 10))
           (mkexpense (mkdate 2024 1 2) (lit "Food") (Q2Qc 30))).
  - left. reflexivity.
  - reflexivity.
  - right. left. reflexivity.
  - discriminate.
Defined.

(** ** The options of the category filter *)

Lemma unique_snoc (l : list str) (x : str) :
  unique (l ++ [x])
  = if existsb (str_eqb x) (unique l) then unique l else unique l ++ [x].
Proof. unfold unique. now rewrite fold_left_app. Qed.

Lemma existsb_str_eqb (x : str) (l : list str) :
  existsb (str_eqb x) l = true <-> In x l.
Proof.
  rewrite existsb_exists. split.
  - intros (y & Hy & E). apply str_eqb_eq in E. now subst y.
  - intros H. exists x. split; [exact H | apply str_eqb_refl].
Qed.

Lemma In_unique (x : str) (l : list str) : In x (unique l) <-> In x l.
Proof.
  revert x. induction l as [|y l IH] using rev_ind; intros x; [reflexivity|].
  rewrite unique_snoc, in_app_iff. cbn [In].
  destruct (existsb (str_eqb y) (unique l)) eqn:E.
  - apply existsb_str_eqb in E. rewrite IH in E. rewrite IH.
    split; [tauto|]. intros [H|[<-|[]]]; assumption.
  - rewrite in_app_iff, IH. cbn [In]. tauto.
Qed.

Lemma NoDup_unique (l : list str) : NoDup (unique l).
Proof.
  induction l as [|y l IH] using rev_ind; [constructor|].
  rewrite unique_snoc.
  destruct (existsb (str_eqb y) (unique l)) eqn:E; [exact IH|].
  apply NoDup_app; [exact IH | repeat constructor; intros [] |].
  intros a Ha [<-|[]]. apply existsb_str_eqb in Ha. congruence.
Qed.

Lemma sorted_snoc (l : list str) (x : str) :
  sorted (l ++ [x]) = insert_str x (sorted l).
Proof. unfold sorted. now rewrite fold_left_app. Qed.

Lemma insert_str_perm (x : str) (l : list str) :
  Permutation (insert_str x l) (x :: l).
Proof.
  induction l as [|y l IH]; simpl; [reflexivity|].
  destruct (str_compare y x); try reflexivity;
    rewrite IH; apply perm_swap.
Qed.

Lemma sorted_perm (l : list str) : Permutation (sorted l) l.
Proof.
  induction l as [|x l IH] using rev_ind; [reflexivity|].
  rewrite sorted_snoc, insert_str_perm, IH.
  apply Permutation_cons_append.
Qed.

Lemma str_not_gt_trans (a b c : str) :
  str_compare a b <> Gt -> str_compare b c <> Gt -> str_compare a c <> Gt.
Proof.
  intros H1 H2.
  destruct (str_compare a b) eqn:E1; [| |congruence];
    destruct (str_compare b c) eqn:E2; try congruence.
  - apply str_compare_eq in E1, E2. subst.
    now rewrite (proj2 (str_compare_eq c c) eq_refl).
  - apply str_compare_eq in E1. subst. now rewrite E2.
  - apply str_compare_eq in E2. subst. now rewrite E1.
  - now rewrite (str_compare_trans a b c E1 E2).
Qed.

Lemma insert_str_sorted (x : str) (l : list str) :
  StronglySorted (fun a b => str_compare a b <> Gt) l ->
  StronglySorted (fun a b => str_compare a b <> Gt) (insert_str x l).
Proof.
  induction 1 as [|y l Hs IH Hall]; simpl; [repeat constructor|].
  destruct (str_compare y x) eqn:E.
  - constructor; [exact IH|]. apply Forall_forall. intros z Hz.
    apply (Permutation_in _ (insert_str_perm x l)) in Hz.
    destruct Hz as [<-|Hz]; [congruence|].
    rewrite Forall_forall in Hall. now apply Hall.
  - constructor; [exact IH|]. apply Forall_forall. intros z Hz.
    apply (Permutation_in _ (insert_str_perm x l)) in Hz.
    destruct Hz as [<-|Hz]; [congruence|].
    rewrite Forall_forall in Hall. now apply Hall.
  - assert (Hxy : str_compare x y <> Gt).
    { rewrite (str_compare_opp y x), E. discriminate. }
    constructor; [constructor; assumption|].
    constructor; [exact Hxy|].
    apply Forall_forall. intros z Hz. rewrite Forall_forall in Hall.
    eapply str_not_gt_trans; [exact Hxy | now apply Hall].
Qed.

Lemma sorted_sorted (l : list str) :
  StronglySorted (fun a b => str_compare a b <> Gt) (sorted l).
Proof.
  induction l as [|x l IH] using rev_ind; [constructor|].
  rewrite sorted_snoc. now apply insert_str_sorted.
Qed.

Lemma sorted_strict (l : list str) :
  NoDup l ->
  StronglySorted (fun a b => str_compare a b <> Gt) l ->
  StronglySorted (fun a b => str_compare a b = Lt) l.
Proof.
  intros Hnd Hs. induction Hs as [|x l Hs IH Hall]; constructor.
  - apply IH. now inversion Hnd.
  - inversion Hnd as [|? ? Hx _]; subst.
    apply Forall_forall. intros y Hy. rewrite Forall_forall in Hall.
    specialize (Hall y Hy).
    destruct (str_compare x y) eqn:E; [|reflexivity|congruence].
    apply str_compare_eq in E. subst y. contradiction.
Qed.

(** X10: the options of the category filter are the word All followed by
    the categories of the frame, each once, in ascending order; every
    category of the frame is among them, and every option other than All
    shows at least one record when chosen. *)
Theorem category_options_complete (df : list expense) :
  exists options,
    category_options df = lit "All" :: options
    /\ StronglySorted (fun a b => str_compare a b = Lt) options
    /\ (forall c, In c options <-> exists e, In e df /\ col_category e = c)
    /\ (forall c, In c options -> c <> lit "All" ->
          filter_category c df <> []).
Proof.
  exists (sorted (unique (map col_category df))).
  assert (Hin : forall c, In c (sorted (unique (map col_category df)))
                          <-> exists e, In e df /\ col_category e = c).
  { intros c. split.
    - intros H. apply (Permutation_in _ (sorted_perm _)) in H.
      apply In_unique, in_map_iff in H. destruct H as (e & He & Hd).
      exists e. auto.
    - intros (e & He & Hc).
      apply (Permutation_in _ (Permutation_sym (sorted_perm _))).
      apply In_unique, in_map_iff. exists e. auto. }
  split; [reflexivity|]. split; [|split; [exact Hin|]].
  - apply sorted_strict; [|apply sorted_sorted].
    apply (Permutation_NoDup (Permutation_sym (sorted_perm _))).
    apply NoDup_unique.
  - intros c Hc Hne E. apply Hin in Hc. destruct Hc as (e & He & Hcat).
    assert (Hf : In e (filter_category c df)).
    { rewrite filter_category_other by assumption.
      apply filter_In. split; [exact He | now apply str_eqb_eq]. }
    rewrite E in Hf. destruct Hf.
Qed.

Lemma category_options_complete_witness :
  category_options
    [mkexpense (mkdate 2024 1 1) (lit "Travel") (Q2Qc 10);
     mkexpense (mkdate 2024 1 2) (lit "Food") (Q2Qc 30);
     mkexpense (mkdate 2024 1 3) (lit "Travel") (Q2Qc 5)]
  = [lit "All"; lit "Food"; lit "Travel"]
  /\ filter_category (lit "Food")
       [mkexpense (mkdate 2024 1 1) (lit "Travel") (Q2Qc 10);
        mkexpense (mkdate 2024 1 2) (lit "Food") (Q2Qc 30);
        mkexpense (mkdate 2024 1 3) (lit "Travel") (Q2Qc 5)] <> [].
Proof.
  split; [reflexivity|].
  destruct (category_options_complete
              [mkexpense (mkdate 2024 1 1) (lit "Travel") (Q2Qc 10);
               mkexpense (mkdate 2024 1 2) (lit "Food") (Q2Qc 30);
               mkexpense (mkdate 2024 1 3) (lit "Travel") (Q2Qc 5)])
    as (options & E & _ & _ & H).
  injection E as E. subst options.
  apply H; [vm_compute; left; reflexivity | discriminate].
Defined.

(** ** The metrics *)

Lemma category_summary_labels (df : list expense) (c : str) :
  In c (map fst (create_category_summary df))
  <-> In c (map col_category df).
Proof.
  rewrite category_summary_unfold, !in_map_iff. split.
  - intros ([c' t] & <- & H).
    apply (Permutation_in _ (sort_values_desc_perm _ _)) in H.
    apply In_category_groups in H. destruct H as [(e & He & Hc) _].
    exists e. auto.
  - intros (e & Hc & He).
    exists (c, total (amounts_of_category c df)). split; [reflexivity|].
    apply (Permutation_in _ (Permutation_sym (sort_values_desc_perm _ _))).
    apply In_category_groups. split; [exists e; auto | reflexivity].
Qed.

Lemma category_summary_NoDup (df : list expense) :
  NoDup (map fst (create_category_summary df)).
Proof.
  rewrite category_summary_unfold.
  apply (Permutation_NoDup
           (Permutation_map fst
              (Permutation_sym (sort_values_desc_perm _ _)))).
  apply (sorted_keys_NoDup str_compare); [|apply category_groups_sorted].
  intros a. now apply str_compare_eq.
Qed.

(** X11: the metrics of the page.  They are shown for a frame that is not
    empty, and only then; the count is the number of records; the total
    is the sum of the amounts of all records; the number of categories
    used is the number of rows of the category summary, at least one and
    no more than the number of records.  (Nothing is stated of the
    average: it is a float, and a mean of floats need not lie between
    bounds of the amounts nor give back the total.) *)
Theorem statistics_consistent (df : list expense) :
  (statistics df = None <-> df = [])
  /\ forall m, statistics df = Some m ->
       number_of_transactions m = length df
       /\ total_expenses m = total (map col_amount df)
       /\ categories_used m = length (create_category_summary df)
       /\ (1 <= categories_used m <= number_of_transactions m)%nat.
Proof.
  unfold statistics. destruct df as [|e0 df'] eqn:Edf.
  { split; [split; reflexivity | discriminate]. }
  rewrite <- Edf. replace (Nat.eqb (length df) 0) with false
    by (subst df; reflexivity).
  assert (Hne : map col_amount df <> []) by (subst df; discriminate).
  assert (Hlen : length df <> O) by (subst df; discriminate).
  split; [split; [discriminate | intros E; subst df; discriminate]|].
  intros m [= <-]. cbn [number_of_transactions total_expenses
                        average_transaction categories_used].
  assert (Hcats : nunique (map col_category df)
                  = length (create_category_summary df)).
  { unfold nunique. rewrite <- (length_map fst (create_category_summary df)).
    apply Permutation_length, NoDup_Permutation.
    - apply NoDup_unique.
    - apply category_summary_NoDup.
    - intros c. now rewrite In_unique, category_summary_labels. }
  split; [reflexivity|]. split; [reflexivity|].
  split; [exact Hcats|].
  unfold nunique. split.
  - assert (Hin : In (col_category e0) (unique (map col_category df))).
    { apply In_unique. subst df. now left. }
    destruct (unique (map col_category df)); [destruct Hin | simpl; lia].
  - rewrite <- (length_map col_category df).
    apply NoDup_incl_length; [apply NoDup_unique|].
    intros c Hc. now apply In_unique.
Qed.

Lemma statistics_consistent_witness :
  exists m,
    statistics [mkexpense (mkdate 2024 1 1) (lit "Food") (Q2Qc 10);
                mkexpense (mkdate 2024 1 2) (lit "Travel") (Q2Qc 30);
                mkexpense (mkdate 2024 1 3) (lit "Food") (Q2Qc 5)] = Some m
    /\ number_of_transactions m = 3%nat /\ categories_used m = 2%nat.
Proof.
  eexists. split; [reflexivity|].
  destruct (statistics_consistent
              [mkexpense (mkdate 2024 1 1) (lit "Food") (Q2Qc 10);
               mkexpense (mkdate 2024 1 2) (lit "Travel") (Q2Qc 30);
               mkexpense (mkdate 2024 1 3) (lit "Food") (Q2Qc 5)])
    as [_ H].
  destruct (H _ eq_refl) as (H1 & _ & H4 & _).
  split; [exact H1 | rewrite H4; reflexivity].
Defined.

(** ** The filters *)

Lemma date_leb_total (a b : date) : date_leb a b = false -> date_le b a.
Proof.
  intros H. destruct (date_leb b a) eqn:E; [now apply date_leb_le|].
  exfalso.
  assert (Ha : ~ date_le a b) by (rewrite <- date_leb_le; congruence).
  assert (Hb : ~ date_le b a) by (rewrite <- date_leb_le; congruence).
  unfold date_le in *. lia.
Qed.

Lemma date_le_refl (a : date) : date_le a a.
Proof. unfold date_le. lia. Qed.

Lemma fold_min_spec (rest : list expense) (init : date) :
  let m := fold_left (fun m x => if date_leb (col_date x) m then col_date x
                                 else m) rest init in
  date_le m init
  /\ (forall x, In x rest -> date_le m (col_date x))
  /\ (m = init \/ exists x, In x rest /\ m = col_date x).
Proof.
  revert init. induction rest as [|e rest IH]; intros init; cbn [fold_left].
  - split; [apply date_le_refl | split; [intros x [] | now left]].
  - destruct (date_leb (col_date e) init) eqn:E.
    + destruct (IH (col_date e)) as (H1 & H2 & H3).
      apply date_leb_le in E. split; [|split].
      * eapply date_le_trans; eassumption.
      * intros x [<-|Hx]; [exact H1 | now apply H2].
      * right. destruct H3 as [->|(x & Hx & ->)];
          [exists e; split; [now left | reflexivity]
          | exists x; split; [now right | reflexivity]].
    + destruct (IH init) as (H1 & H2 & H3).
      apply date_leb_total in E. split; [exact H1|split].
      * intros x [<-|Hx]; [eapply date_le_trans; eassumption | now apply H2].
      * destruct H3 as [->|(x & Hx & ->)];
          [now left | right; exists x; split; [now right | reflexivity]].
Qed.

Lemma fold_max_spec (rest : list expense) (init : date) :
  let m := fold_left (fun m x => if date_leb m (col_date x) then col_date x
                                 else m) rest init in
  date_le init m
  /\ (forall x, In x rest -> date_le (col_date x) m)
  /\ (m = init \/ exists x, In x rest /\ m = col_date x).
Proof.
  revert init. induction rest as [|e rest IH]; intros init; cbn [fold_left].
  - split; [apply date_le_refl | split; [intros x [] | now left]].
  - destruct (date_leb init (col_date e)) eqn:E.
    + destruct (IH (col_date e)) as (H1 & H2 & H3).
      apply date_leb_le in E. split; [|split].
      * eapply date_le_trans; eassumption.
      * intros x [<-|Hx]; [exact H1 | now apply H2].
      * right. destruct H3 as [->|(x & Hx & ->)];
          [exists e; split; [now left | reflexivity]
          | exists x; split; [now right | reflexivity]].
    + destruct (IH init) as (H1 & H2 & H3).
      apply date_leb_total in E. split; [exact H1|split].
      * intros x [<-|Hx]; [eapply date_le_trans; eassumption | now apply H2].
      * destruct H3 as [->|(x & Hx & ->)];
          [now left | right; exists x; split; [now right | reflexivity]].
Qed.

Lemma filter_all {A : Type} (f : A -> bool) (l : list A) :
  (forall x, In x l -> f x = true) -> filter f l = l.
Proof.
  induction l as [|a l IH]; intros H; [reflexivity|].
  cbn [filter]. rewrite (H a) by now left.
  rewrite IH; [reflexivity|]. intros x Hx. apply H. now right.
Qed.

(** X12: the date filter as it is first shown.  Its bounds are the
    earliest and the latest date of the frame, both dates of records, and
    with them the filter keeps every record: before the user narrows the
    range, nothing is hidden. *)
Theorem default_date_range_keeps_all (df : list expense) (lo hi : date) :
  min_date df = Some lo -> max_date df = Some hi ->
  filter_date_range [lo; hi] df = df
  /\ (exists e, In e df /\ col_date e = lo)
  /\ (exists e, In e df /\ col_date e = hi)
  /\ (forall e, In e df -> date_le lo (col_date e) /\ date_le (col_date e) hi).
Proof.
  destruct df as [|e0 rest]; [discriminate|].
  cbn [min_date max_date]. intros [= <-] [= <-].
  destruct (fold_min_spec rest (col_date e0)) as (M1 & M2 & M3).
  destruct (fold_max_spec rest (col_date e0)) as (X1 & X2 & X3).
  cbv zeta in *.
  set (lo := fold_left _ rest (col_date e0)) in *.
  set (hi := fold_left (fun m x => if date_leb m (col_date x)
                                   then col_date x else m)
               rest (col_date e0)) in *.
  assert (Hall : forall e, In e (e0 :: rest) ->
                   date_le lo (col_date e) /\ date_le (col_date e) hi).
  { intros e [<-|He]; [auto | split; [now apply M2 | now apply X2]]. }
  split; [|split; [|split; [|exact Hall]]].
  - unfold filter_date_range. apply filter_all. intros e He.
    destruct (Hall e He) as [H1 H2].
    apply andb_true_iff. split; now apply date_leb_le.
  - destruct M3 as [E|(x & Hx & E)];
      [exists e0; split; [now left | now rewrite E]
      | exists x; split; [now right | now rewrite E]].
  - destruct X3 as [E|(x & Hx & E)];
      [exists e0; split; [now left | now rewrite E]
      | exists x; split; [now right | now rewrite E]].
Qed.

Lemma default_date_range_keeps_all_witness :
  let df := [mkexpense (mkdate 2024 2 1) (lit "Food") (Q2Qc 20);
             mkexpense (mkdate 2023 12 15) (lit "Food") (Q2Qc 10);
             mkexpense (mkdate 2024 2 20) (lit "Rent") (Q2Qc 5)] in
  filter_date_range [mkdate 2023 12 15; mkdate 2024 2 20] df = df.
Proof.
  intros df.
  apply (default_date_range_keeps_all df (mkdate 2023 12 15)
           (mkdate 2024 2 20)); reflexivity.
Defined.

Lemma filter_comm {A : Type} (f g : A -> bool) (l : list A) :
  filter f (filter g l) = filter g (filter f l).
Proof.
  induction l as [|a l IH]; [reflexivity|]. cbn [filter].
  destruct (f a) eqn:Ef, (g a) eqn:Eg; cbn [filter];
    rewrite ?Ef, ?Eg, IH; reflexivity.
Qed.

Lemma filter_length_le {A : Type} (f : A -> bool) (l : list A) :
  (length (filter f l) <= length l)%nat.
Proof.
  induction l as [|a l IH]; [reflexivity|]. cbn [filter].
  destruct (f a); simpl; lia.
Qed.

(** X13: the two filters of the list of expenses.  The records shown are
    those of the chosen category (all of them for All) whose date lies in
    the chosen range, bounds included; applying the date filter first and
    the category filter second would show the same records; and the count
    in the summary line never exceeds the number of records. *)
Theorem filters_compose (s : str) (start_date end_date : date)
    (df : list expense) :
  (forall e, In e (filtered s [start_date; end_date] df)
             <-> In e df
                 /\ (s = lit "All" \/ col_category e = s)
                 /\ date_le start_date (col_date e)
                 /\ date_le (col_date e) end_date)
  /\ filtered s [start_date; end_date] df
     = filter_category s (filter_date_range [start_date; end_date] df)
  /\ (length (filtered s [start_date; end_date] df) <= length df)%nat.
Proof.
  unfold filtered, filter_category, filter_date_range.
  destruct (str_eqb s (lit "All")) eqn:Hs; cbn [negb].
  - apply str_eqb_eq in Hs. split; [|split].
    + intros e. rewrite filter_In, andb_true_iff, !date_leb_le. tauto.
    + reflexivity.
    + apply filter_length_le.
  - apply str_eqb_neq in Hs. split; [|split].
    + intros e. rewrite !filter_In, andb_true_iff, !date_leb_le, str_eqb_eq.
      tauto.
    + apply filter_comm.
    + etransitivity; apply filter_length_le.
Qed.




(** ** Trimming the category *)

Lemma lstrip_idem (s : str) : lstrip (lstrip s) = lstrip s.
Proof.
  induction s as [|c s IH]; [reflexivity|].
  cbn [lstrip]. destruct (isspace c) eqn:E; [exact IH|].
  cbn [lstrip]. now rewrite E.
Qed.

Lemma lstrip_keeps_last (l : str) (c : char) :
  isspace c = false -> exists u, lstrip (l ++ [c]) = u ++ [c].
Proof.
  intros Hc. induction l as [|x l IH].
  - exists []. cbn. now rewrite Hc.
  - cbn [app lstrip]. destruct (isspace x); [exact IH|].
    exists (x :: l). reflexivity.
Qed.

Lemma lstrip_head (s : str) :
  lstrip s = [] \/ exists c t, lstrip s = c :: t /\ isspace c = false.
Proof.
  induction s as [|c s IH]; [now left|].
  cbn [lstrip]. destruct (isspace c) eqn:E; [exact IH|].
  right. exists c, s. auto.
Qed.

Lemma strip_idem (s : str) : strip (strip s) = strip s.
Proof.
  unfold strip, rstrip.
  destruct (lstrip_head s) as [E|(c & t & E & Hc)].
  - rewrite E. reflexivity.
  - rewrite E. cbn [rev].
    destruct (lstrip_keeps_last (rev t) c Hc) as (u & Hu).
    rewrite Hu, rev_app_distr. cbn [rev app lstrip]. rewrite Hc.
    cbn [rev]. rewrite rev_involutive, <- Hu, lstrip_idem, Hu.
    now rewrite rev_app_distr.
Qed.

(** X15: white space around the category does not count: a submission
    writes the same line, with the same outcome, as the submission of the
    trimmed category, so that the two go to the same category on reload;
    what is written has no white space at either end. *)
Theorem add_expense_trims_category (d : date) (c : str) (a : Z) (w : world) :
  add_expense d c a w = add_expense d (strip c) a w
  /\ lstrip (strip c) = strip c /\ rstrip (strip c) = strip c.
Proof.
  split; [|split].
  - unfold add_expense. now rewrite strip_idem.
  - pose proof (strip_idem c) as H. unfold strip in *. unfold rstrip in *.
    destruct (lstrip_head c) as [E|(x & t & E & Hx)].
    + rewrite E. reflexivity.
    + rewrite E. cbn [rev].
      destruct (lstrip_keeps_last (rev t) x Hx) as (u & Hu).
      rewrite Hu, rev_app_distr. cbn [rev app lstrip]. now rewrite Hx.
  - unfold strip, rstrip. rewrite rev_involutive, lstrip_idem. reflexivity.
Qed.

(** ** Summaries of a frame that is not empty *)

(** X16: the summaries are empty for the empty frame only.  Since [main]
    returns before the tabs when the frame is empty, the notices of the
    tabs for an empty monthly or category summary are never shown. *)
Theorem summaries_empty_only_for_empty_frame (df : list expense) :
  (create_monthly_summary df = [] <-> df = [])
  /\ (create_category_summary df = [] <-> df = []).
Proof.
  split; (split; [|intros ->; reflexivity]).
  - destruct df as [|e df]; [reflexivity|]. intros E. exfalso.
    assert (H : In ((year (col_date e), month (col_date e)),
                    total (amounts_of_month (year (col_date e))
                             (month (col_date e)) (e :: df)))
                  (groupby_sum period_compare
                     (map (fun x => (to_period_M (col_date x), col_amount x))
                        (e :: df)))).
    { apply In_monthly_groups. split; [|reflexivity].
      exists e. split; [now left | auto]. }
    rewrite monthly_summary_unfold in E.
    apply (in_map (fun r => (period_str (fst r), snd r))) in H.
    rewrite E in H. destruct H.
  - destruct df as [|e df]; [reflexivity|]. intros E. exfalso.
    assert (H : In (col_category e)
                  (map fst (create_category_summary (e :: df)))).
    { apply category_summary_labels. now left. }
    rewrite E in H. destruct H.
Qed.

(** ** The metrics after a submission *)

(** X17: a record that is added shows in the metrics.  The file is one of
    complete lines of the kind described by [plain_line] and the
    submission one of the kind described by [plain_submission]; it is
    valid and its category is no missing-value marker.  Then the reloaded
    frame has one record more, the amounts of its records are those of
    before followed by the amount submitted, which is positive, and the
    categories are those of before followed by the trimmed category. *)
Theorem metrics_after_submission (d : date) (c : str) (a : Z) (w : world) :
  plain_store (file w) = true ->
  plain_submission (d, c, a) = true ->
  comes_back (d, c, a) = true ->
  let before := fst (load_expenses w) in
  let after := fst (load_expenses (snd (add_expense d c a w))) in
  length after = S (length before)
  /\ map col_amount after = map col_amount before ++ [amount_of_cents a]
  /\ map col_category after = map col_category before ++ [strip c]
  /\ 0 < amount_of_cents a.
Proof.
  intros Hst Hsub Hback before after.
  apply plain_store_complete in Hst.
  assert (Hr : in_timestamp_range d = true).
  { unfold plain_submission in Hsub. rewrite !andb_true_iff in Hsub. tauto. }
  unfold comes_back in Hback. rewrite !andb_true_iff in Hback.
  destruct Hback as [[Hc Ha] Hna].
  apply negb_true_iff in Hc, Hna. apply Z.ltb_lt in Ha.
  unfold in_timestamp_range in Hr. rewrite !andb_true_iff in Hr.
  destruct Hr as [[Hv Hmin] Hmax].
  assert (E : after = before ++ [mkexpense d (strip c) (amount_of_cents a)])
    by now apply add_then_load.
  rewrite E. split; [|split; [|split]].
  - rewrite length_app. simpl. lia.
  - now rewrite map_app.
  - now rewrite map_app.
  - unfold amount_of_cents, Qclt. cbn [this Q2Qc].
    rewrite !Qred_correct. unfold Qlt. cbn [Qnum Qden]. lia.
Qed.

Lemma metrics_after_submission_witness :
  let w := mkworld (Some (lit "2024-01-14,Travel,30.0" ++ [CR; LF])) false [] in
  length (fst (load_expenses
                 (snd (add_expense (mkdate 2024 1 15) (lit " Food ") 1050 w))))
  = 2%nat.
Proof.
  intros w.
  pose proof (metrics_after_submission (mkdate 2024 1 15) (lit " Food ")
                1050 w eq_refl eq_refl eq_refl) as H.
  cbv zeta in H. destruct H as (H & _). rewrite H. reflexivity.
Defined.
